(** * TestimonialCarousel: scroll state, keyboard navigation, announcements

    A shallow embedding of
    [src/testimonial_section_frontend/src/components/TestimonialCarousel.js]
    (and of the two earlier revisions of the same component kept in
    [src/unnamed/part_000]) together with the properties the specification
    states about it.

    Modelling conventions.
    - The component is modelled twice.  In the first model a JavaScript
      number that the code reads from the DOM ([scrollLeft], [scrollWidth],
      [clientWidth], [offsetLeft]) is an exact rational [Q] and
      [Number.POSITIVE_INFINITY] is the extra constructor [PosInf] of
      [number]; rounding is absent.  In the second model (names ending in
      [64]) the update functions compute in IEEE 754 binary64, as the code
      does; what is said about the comparisons of [updateScrollState] itself
      is stated and proved on that model.
    - A React ref is an [option]: [None] is [ref.current === null].
    - [useState] cells are fields of the record [State]; a setter replaces
      the field.
    - [el.scrollBy(opts)] is fire-and-forget: the element records the request
      in [scrollByCalls], in call order. *)

From Stdlib Require Import QArith Qabs Qpower Lqa.
From Stdlib Require Import String Ascii DecimalString DecimalNat.
From Stdlib Require Import List Arith Bool Lia.
From Stdlib Require Floats.
Import PrimFloat.
Import ListNotations.

Local Open Scope Q_scope.

(** ** Numbers *)

(** [Number.POSITIVE_INFINITY] next to the finite values. *)
Inductive number : Type :=
| Fin (q : Q)
| PosInf.

(** [x < y] on finite numbers, as a boolean. *)
Definition Qltb (x y : Q) : bool := negb (Qle_bool y x).

(** [delta < closestDelta] where [delta] is finite: anything finite is below
    [Infinity]. *)
Definition lt_number (delta : Q) (closestDelta : number) : bool :=
  match closestDelta with
  | PosInf => true
  | Fin d => Qltb delta d
  end.

(** ** The DOM objects the component touches *)

(** The argument of [Element.scrollBy]. *)
Record ScrollToOptions : Type := mkScrollToOptions {
  left : Q;
  behavior : string
}.

(** A child of the scroll container (an [<article>] card). *)
Record HTMLElement : Type := mkHTMLElement {
  offsetLeft : Q
}.

(** The scroll container.  [children] is optional because the code reads it
    as [el.children || []]. *)
Record Container : Type := mkContainer {
  scrollLeft : Q;
  scrollWidth : Q;
  clientWidth : Q;
  children : option (list HTMLElement);
  scrollByCalls : list ScrollToOptions
}.

(** The live region [<div aria-live="polite">]. *)
Record LiveRegion : Type := mkLiveRegion {
  textContent : string
}.

(** The part of a keyboard event the handler uses. *)
Record KeyboardEvent : Type := mkKeyboardEvent {
  key : string;
  defaultPrevented : bool
}.

Definition preventDefault (e : KeyboardEvent) : KeyboardEvent :=
  {| key := key e; defaultPrevented := true |}.

(** [el.scrollBy(opts)]. *)
Definition scrollBy (opts : ScrollToOptions) (el : Container) : Container :=
  {| scrollLeft := scrollLeft el;
     scrollWidth := scrollWidth el;
     clientWidth := clientWidth el;
     children := children el;
     scrollByCalls := scrollByCalls el ++ [opts] |}.

(** [Array.from(el.children || [])]. *)
Definition childList (el : Container) : list HTMLElement :=
  match children el with
  | Some l => l
  | None => []
  end.

(** ** Testimonials *)

Record Testimonial : Type := mkTestimonial {
  id : nat;
  name : string;
  role : string;
  rating : option nat;
  text : string
}.

(** The built-in list used when no usable [items] prop is given. *)
Definition defaultTestimonials : list Testimonial :=
  [ mkTestimonial 1 "Alex Johnson" "Product Manager, Bluewave" (Some 5%nat)
      "The carousel is slick and intuitive. Our customers love browsing reviews!";
    mkTestimonial 2 "Priya Singh" "Founder, Horizon Labs" (Some 5%nat)
      "Clean design with accessible controls. Exactly what we needed.";
    mkTestimonial 3 "Marcus Lee" "CTO, NorthStar" (Some 4%nat)
      "Solid performance and smooth transitions across devices.";
    mkTestimonial 4 "Emily Chen" "Design Lead, Aurora" (Some 5%nat)
      "Ocean Professional theme shines—subtle gradients and great legibility.";
    mkTestimonial 5 "Diego Martinez" "Marketing, WavePoint" (Some 4%nat)
      "Setup was straightforward and the UI feels premium.";
    mkTestimonial 6 "Sofia Rossi" "Operations, TerraCore" (Some 5%nat)
      "Love the keyboard navigation and the swipe gestures on mobile!";
    mkTestimonial 7 "Hannah Kim" "Engineer, FinEdge" (Some 5%nat)
      "Great balance of aesthetics and accessibility.";
    mkTestimonial 8 "Liam O'Connor" "CEO, BrightPath" (Some 5%nat)
      "The best testimonial section we’ve tried. Fast, simple, beautiful." ].

(** [items && items.length ? items : defaults].  [None] is an omitted prop;
    an empty array has the falsy length [0]. *)
Definition testimonials (items : option (list Testimonial)) : list Testimonial :=
  match items with
  | None => defaultTestimonials
  | Some l =>
      match length l with
      | O => defaultTestimonials
      | S _ => l
      end
  end.

(** ** Component state *)

(** The three [useState] cells. *)
Record State : Type := mkState {
  canScrollLeft : bool;
  canScrollRight : bool;
  activeIndex : nat
}.

(** [useState(false)], [useState(true)], [useState(0)]. *)
Definition initialState : State :=
  {| canScrollLeft := false; canScrollRight := true; activeIndex := 0 |}.

(** One mounted (or not yet mounted) carousel: its two refs and its state. *)
Record Component : Type := mkComponent {
  containerRef : option Container;
  liveRef : option LiveRegion;
  state : State
}.

Definition setCanScrollLeft (b : bool) (c : Component) : Component :=
  {| containerRef := containerRef c;
     liveRef := liveRef c;
     state := {| canScrollLeft := b;
                 canScrollRight := canScrollRight (state c);
                 activeIndex := activeIndex (state c) |} |}.

Definition setCanScrollRight (b : bool) (c : Component) : Component :=
  {| containerRef := containerRef c;
     liveRef := liveRef c;
     state := {| canScrollLeft := canScrollLeft (state c);
                 canScrollRight := b;
                 activeIndex := activeIndex (state c) |} |}.

Definition setActiveIndex (i : nat) (c : Component) : Component :=
  {| containerRef := containerRef c;
     liveRef := liveRef c;
     state := {| canScrollLeft := canScrollLeft (state c);
                 canScrollRight := canScrollRight (state c);
                 activeIndex := i |} |}.

(** ** updateScrollState *)

(** [Math.abs(child.offsetLeft - scrollLeft)]. *)
Definition delta (sl : Q) (child : HTMLElement) : Q :=
  Qabs (offsetLeft child - sl).

(** The body of the [forEach] callback, on the two captured variables
    [(closestIdx, closestDelta)]. *)
Definition closestStep (sl : Q) (acc : nat * number) (child : HTMLElement)
    (idx : nat) : nat * number :=
  if lt_number (delta sl child) (snd acc)
  then (idx, Fin (delta sl child))
  else acc.

(** [children.forEach((child, idx) => ...)], started at index [idx]. *)
Fixpoint forEachClosest (sl : Q) (l : list HTMLElement) (idx : nat)
    (acc : nat * number) : nat * number :=
  match l with
  | [] => acc
  | child :: rest => forEachClosest sl rest (S idx) (closestStep sl acc child idx)
  end.

(** The value of [closestIdx] when the loop ends. *)
Definition closestIdx (sl : Q) (l : list HTMLElement) : nat :=
  fst (forEachClosest sl l 0 (0%nat, PosInf)).

(** [updateScrollState] of the current revision. *)
Definition updateScrollState (c : Component) : Component :=
  match containerRef c with
  | None => c
  | Some el =>
      let c1 := setCanScrollLeft (Qltb 0 (scrollLeft el)) c in
      let c2 :=
        setCanScrollRight
          (Qltb (scrollLeft el + clientWidth el) (scrollWidth el - 1)) c1 in
      match childList el with
      | [] => c2
      | _ :: _ => setActiveIndex (closestIdx (scrollLeft el) (childList el)) c2
      end
  end.

(** [updateScrollButtons] of the first revision ([part_000]): the two flags
    only. *)
Definition updateScrollButtons (c : Component) : Component :=
  match containerRef c with
  | None => c
  | Some el =>
      setCanScrollRight
        (Qltb (scrollLeft el + clientWidth el) (scrollWidth el - 1))
        (setCanScrollLeft (Qltb 0 (scrollLeft el)) c)
  end.

(** [updateScrollState] of the revision without arrow buttons ([part_000]):
    the active index only. *)
Definition updateScrollState_noArrows (c : Component) : Component :=
  match containerRef c with
  | None => c
  | Some el =>
      match childList el with
      | [] => c
      | _ :: _ => setActiveIndex (closestIdx (scrollLeft el) (childList el)) c
      end
  end.

(** ** scrollByViewport and onKeyDown *)

(** [scrollByViewport(dir)]; every call site passes [dir]. *)
Definition scrollByViewport (dir : Q) (c : Component) : Component :=
  match containerRef c with
  | None => c
  | Some el =>
      {| containerRef :=
           Some (scrollBy {| left := dir * clientWidth el;
                             behavior := "smooth" |} el);
         liveRef := liveRef c;
         state := state c |}
  end.

(** [onKeyDown(e)]: the event after the handler and the component after it. *)
Definition onKeyDown (e : KeyboardEvent) (c : Component)
    : KeyboardEvent * Component :=
  if String.eqb (key e) "ArrowRight" then
    (preventDefault e, scrollByViewport 1 c)
  else if String.eqb (key e) "ArrowLeft" then
    (preventDefault e, scrollByViewport (-1) c)
  else (e, c).

(** ** Props, rendering and the announcement effect *)

(** The props the claims use.  A prop that the caller omits is [None]; the
    destructuring defaults are [showStars = true], [announceChanges = true]. *)
Record Props : Type := mkProps {
  items : option (list Testimonial);
  showStars : option bool;
  announceChanges : option bool
}.

Definition withDefault {A : Type} (d : A) (o : option A) : A :=
  match o with
  | Some a => a
  | None => d
  end.

(** A number inside a template literal. *)
Definition decimal (n : nat) : string :=
  NilEmpty.string_of_uint (Nat.to_uint n).

(** What one [<article>] shows. *)
Record Card : Type := mkCard {
  cardKey : nat;
  ariaLabel : string;
  cardName : string;
  cardRole : string;
  stars : option (list bool);
  quote : string
}.

(** The callback of [testimonials.map((t, idx) => <article .../>)]. *)
Definition renderCard (p : Props) (totalSlides : nat) (t : Testimonial)
    (idx : nat) : Card :=
  {| cardKey := id t;
     ariaLabel := "Slide " ++ decimal (idx + 1) ++ " of " ++ decimal totalSlides;
     cardName := name t;
     cardRole := role t;
     stars :=
       if withDefault true (showStars p)
       then Some (map (fun i => Nat.ltb i (withDefault 0%nat (rating t)))
                      (seq 0 5))
       else None;
     quote := text t |}.

Fixpoint mapIndexed {A B : Type} (f : A -> nat -> B) (l : list A) (idx : nat)
    : list B :=
  match l with
  | [] => []
  | a :: rest => f a idx :: mapIndexed f rest (S idx)
  end.

(** The cards of one render. *)
Definition renderCards (p : Props) : list Card :=
  let ts := testimonials (items p) in
  mapIndexed (renderCard p (List.length ts)) ts 0.

(** The template literal of the announcement. *)
Definition announcement (activeIdx totalSlides : nat) (current : Testimonial)
    : string :=
  "Showing testimonial " ++ decimal (activeIdx + 1) ++ " of "
    ++ decimal totalSlides ++ ": " ++ name current ++ ", " ++ role current.

(** The body of the second [useEffect]. *)
Definition announceEffect (p : Props) (c : Component) : Component :=
  if negb (withDefault true (announceChanges p)) then c
  else
    match liveRef c with
    | None => c
    | Some _ =>
        let ts := testimonials (items p) in
        match nth_error ts (activeIndex (state c)) with
        | None => c
        | Some current =>
            {| containerRef := containerRef c;
               liveRef :=
                 Some {| textContent :=
                           announcement (activeIndex (state c))
                                        (List.length ts) current |};
               state := state c |}
        end
    end.

(** The dependency array [[activeIndex, testimonials, totalSlides,
    announceChanges]] of that effect.  React compares entries with
    [Object.is]; for the memoised array that is its identity, kept here as a
    stamp. *)
Record Deps : Type := mkDeps {
  depActiveIndex : nat;
  depTestimonials : nat;
  depTotalSlides : nat;
  depAnnounceChanges : bool
}.

Definition sameDeps (a b : Deps) : bool :=
  Nat.eqb (depActiveIndex a) (depActiveIndex b)
  && Nat.eqb (depTestimonials a) (depTestimonials b)
  && Nat.eqb (depTotalSlides a) (depTotalSlides b)
  && Bool.eqb (depAnnounceChanges a) (depAnnounceChanges b).

Definition currentDeps (memo : nat) (p : Props) (c : Component) : Deps :=
  {| depActiveIndex := activeIndex (state c);
     depTestimonials := memo;
     depTotalSlides := List.length (testimonials (items p));
     depAnnounceChanges := withDefault true (announceChanges p) |}.

(** One commit: the effect runs on mount ([prev = None]) and whenever an
    entry of the dependency array differs from the previous commit. *)
Definition commitAnnounce (prev : option Deps) (memo : nat) (p : Props)
    (c : Component) : Component :=
  match prev with
  | None => announceEffect p c
  | Some d =>
      if sameDeps d (currentDeps memo p c) then c else announceEffect p c
  end.

(** ** Sequences of scroll and resize notifications *)

(** Between two notifications the host may have changed the container (or
    unmounted it); each notification calls [updateScrollState]. *)
Definition notify (c : Component) (ref : option Container) : Component :=
  updateScrollState
    {| containerRef := ref; liveRef := liveRef c; state := state c |}.

Definition runNotifications (c : Component) (refs : list (option Container))
    : Component :=
  fold_left notify refs c.

(** ** Arrow buttons and key sequences *)

(** The [disabled] props passed to the two [ArrowButton]s:
    [!canScrollLeft] and [!canScrollRight]. *)
Definition prevDisabled (s : State) : bool := negb (canScrollLeft s).

Definition nextDisabled (s : State) : bool := negb (canScrollRight s).

(** The section's [onKeyDown] applied to the key presses [es], in order. *)
Definition handleKeys (es : list KeyboardEvent) (c : Component) : Component :=
  fold_left (fun c' e => snd (onKeyDown e c')) es c.

(** The direction a key stands for, if any. *)
Definition keyDirection (e : KeyboardEvent) : option Q :=
  if String.eqb (key e) "ArrowRight" then Some 1
  else if String.eqb (key e) "ArrowLeft" then Some (-1)
  else None.

Fixpoint keyDirections (es : list KeyboardEvent) : list Q :=
  match es with
  | [] => []
  | e :: rest =>
      match keyDirection e with
      | Some d => d :: keyDirections rest
      | None => keyDirections rest
      end
  end.

(** ** AvatarInitials *)

(** Text is a [string] of ASCII characters; the case mapping of other
    characters is not modelled. *)
Definition space : ascii := " "%char.

(** [s.split(" ")]: the pieces between single spaces; never an empty array
    ([String.prototype.split] gives [[""]] for the empty string). *)
Fixpoint split_space (s : string) : list string :=
  match s with
  | EmptyString => [EmptyString]
  | String ch rest =>
      if Ascii.eqb ch space then EmptyString :: split_space rest
      else
        match split_space rest with
        | w :: ws => String ch w :: ws
        | [] => [String ch EmptyString]
        end
  end.

(** [n[0]]: [undefined] ([None]) on the empty string. *)
Definition firstChar (w : string) : option ascii :=
  match w with
  | EmptyString => None
  | String ch _ => Some ch
  end.

(** [.filter(Boolean)] on an array of single characters and [undefined]. *)
Fixpoint filterBoolean (l : list (option ascii)) : list ascii :=
  match l with
  | [] => []
  | Some ch :: rest => ch :: filterBoolean rest
  | None :: rest => filterBoolean rest
  end.

(** [.join("")] on an array of single characters. *)
Fixpoint join (l : list ascii) : string :=
  match l with
  | [] => EmptyString
  | ch :: rest => String ch (join rest)
  end.

(** [.join("")] on an array that may hold [undefined], which joins as the
    empty string. *)
Fixpoint joinUndefined (l : list (option ascii)) : string :=
  match l with
  | [] => EmptyString
  | Some ch :: rest => String ch (joinUndefined rest)
  | None :: rest => joinUndefined rest
  end.

Definition upperAscii (ch : ascii) : ascii :=
  let n := nat_of_ascii ch in
  if ((97 <=? n) && (n <=? 122))%nat then ascii_of_nat (n - 32) else ch.

(** [.toUpperCase()]. *)
Fixpoint toUpperCase (s : string) : string :=
  match s with
  | EmptyString => EmptyString
  | String ch rest => String (upperAscii ch) (toUpperCase rest)
  end.

(** [name || ""]. *)
Definition nameOrEmpty (name : option string) : string :=
  withDefault EmptyString name.

(** The initials before [.toUpperCase()]:
    [split(" ").map(n => n[0]).filter(Boolean).slice(0, 2).join("")]. *)
Definition rawInitials (s : string) : string :=
  join (firstn 2 (filterBoolean (map firstChar (split_space s)))).

(** The text [AvatarInitials] shows. *)
Definition AvatarInitials (name : option string) : string :=
  toUpperCase (rawInitials (nameOrEmpty name)).

(** The avatar text of the first revision ([part_000]), inline in the card:
    [t.name.split(" ").map(n => n[0]).slice(0,2).join("")]. *)
Definition legacyInitials (name : string) : string :=
  joinUndefined (firstn 2 (map firstChar (split_space name))).

(** The characters of a string. *)
Fixpoint chars (s : string) : list ascii :=
  match s with
  | EmptyString => []
  | String ch rest => ch :: chars rest
  end.

(** ** The page shell ([App]) *)

(** [prevTheme === 'light' ? 'dark' : 'light']. *)
Definition toggleTheme (theme : string) : string :=
  if String.eqb theme "light" then "dark"%string else "light"%string.

(** The toggle button's [aria-label]. *)
Definition themeLabel (theme : string) : string :=
  ("Switch to "
     ++ (if String.eqb theme "light" then "dark" else "light")
     ++ " mode")%string.

(** The page: the [theme] state and the [data-theme] attribute of the
    document element ([None] before the first effect). *)
Record Page : Type := mkPage {
  theme : string;
  dataTheme : option string
}.

(** [useState('light')], before the first commit. *)
Definition initialPage : Page :=
  {| theme := "light"; dataTheme := None |}.

(** The effect [[theme]]: [setAttribute('data-theme', theme)]. *)
Definition applyTheme (pg : Page) : Page :=
  {| theme := theme pg; dataTheme := Some (theme pg) |}.

(** A click on the toggle: the state update and the commit that follows. *)
Definition clickToggle (pg : Page) : Page :=
  applyTheme {| theme := toggleTheme (theme pg); dataTheme := dataTheme pg |}.

Fixpoint clicks (n : nat) (pg : Page) : Page :=
  match n with
  | O => pg
  | S m => clicks m (clickToggle pg)
  end.

(** ** Children laid out left to right *)

(** Offsets never decrease along the child list. *)
Definition leftToRight (l : list HTMLElement) : Prop :=
  forall a b ca cb, (a <= b)%nat ->
    nth_error l a = Some ca -> nth_error l b = Some cb ->
    offsetLeft ca <= offsetLeft cb.

(** Offsets strictly increase along the child list. *)
Definition strictlyLeftToRight (l : list HTMLElement) : Prop :=
  forall a b ca cb, (a < b)%nat ->
    nth_error l a = Some ca -> nth_error l b = Some cb ->
    offsetLeft ca < offsetLeft cb.

(** The sum of the [left] fields of a list of scroll requests. *)
Fixpoint totalLeft (rs : list ScrollToOptions) : Q :=
  match rs with
  | [] => 0
  | r :: rest => left r + totalLeft rest
  end.

Fixpoint sumQ (l : list Q) : Q :=
  match l with
  | [] => 0
  | x :: rest => x + sumQ rest
  end.

(** The request [scrollByViewport dir] sends to a container of width [cw]. *)
Definition viewportRequest (cw dir : Q) : ScrollToOptions :=
  {| left := dir * cw; behavior := "smooth" |}.

(** ** The same code in binary64 arithmetic *)

(** JavaScript numbers are IEEE 754 binary64 values; the kernel's [float] is
    that format with round-to-nearest-even.  The definitions below are the
    update functions again, now with every number a double:
    [Number.POSITIVE_INFINITY] is [infinity], [Math.abs] is [abs], [<] is
    [ltb].  They touch only the three state cells. *)
Record HTMLElement64 : Type := mkHTMLElement64 {
  offsetLeft64 : float
}.

Record Container64 : Type := mkContainer64 {
  scrollLeft64 : float;
  scrollWidth64 : float;
  clientWidth64 : float;
  children64 : option (list HTMLElement64)
}.

(** [Array.from(el.children || [])]. *)
Definition childList64 (el : Container64) : list HTMLElement64 :=
  match children64 el with
  | Some l => l
  | None => []
  end.

(** [Math.abs(child.offsetLeft - scrollLeft)]. *)
Definition delta64 (sl : float) (child : HTMLElement64) : float :=
  PrimFloat.abs (PrimFloat.sub (offsetLeft64 child) sl).

(** The body of the [forEach] callback. *)
Definition closestStep64 (sl : float) (acc : nat * float)
    (child : HTMLElement64) (idx : nat) : nat * float :=
  if PrimFloat.ltb (delta64 sl child) (snd acc)
  then (idx, delta64 sl child)
  else acc.

Fixpoint forEachClosest64 (sl : float) (l : list HTMLElement64) (idx : nat)
    (acc : nat * float) : nat * float :=
  match l with
  | [] => acc
  | child :: rest =>
      forEachClosest64 sl rest (S idx) (closestStep64 sl acc child idx)
  end.

Definition closestIdx64 (sl : float) (l : list HTMLElement64) : nat :=
  fst (forEachClosest64 sl l 0 (0%nat, PrimFloat.infinity)).

(** [updateScrollState] of the current revision, on the container ref and
    the state cells. *)
Definition updateScrollState64 (ref : option Container64) (s : State) : State :=
  match ref with
  | None => s
  | Some el =>
      let s1 :=
        {| canScrollLeft := PrimFloat.ltb PrimFloat.zero (scrollLeft64 el);
           canScrollRight := canScrollRight s;
           activeIndex := activeIndex s |} in
      let s2 :=
        {| canScrollLeft := canScrollLeft s1;
           canScrollRight :=
             PrimFloat.ltb
               (PrimFloat.add (scrollLeft64 el) (clientWidth64 el))
               (PrimFloat.sub (scrollWidth64 el) PrimFloat.one);
           activeIndex := activeIndex s1 |} in
      match childList64 el with
      | [] => s2
      | _ :: _ =>
          {| canScrollLeft := canScrollLeft s2;
             canScrollRight := canScrollRight s2;
             activeIndex := closestIdx64 (scrollLeft64 el) (childList64 el) |}
      end
  end.

(** [updateScrollButtons] of the first revision ([part_000]). *)
Definition updateScrollButtons64 (ref : option Container64) (s : State) : State :=
  match ref with
  | None => s
  | Some el =>
      {| canScrollLeft := PrimFloat.ltb PrimFloat.zero (scrollLeft64 el);
         canScrollRight :=
           PrimFloat.ltb
             (PrimFloat.add (scrollLeft64 el) (clientWidth64 el))
             (PrimFloat.sub (scrollWidth64 el) PrimFloat.one);
         activeIndex := activeIndex s |}
  end.

(** [updateScrollState] of the revision without arrow buttons ([part_000]). *)
Definition updateScrollState_noArrows64 (ref : option Container64) (s : State)
    : State :=
  match ref with
  | None => s
  | Some el =>
      match childList64 el with
      | [] => s
      | _ :: _ =>
          {| canScrollLeft := canScrollLeft s;
             canScrollRight := canScrollRight s;
             activeIndex := closestIdx64 (scrollLeft64 el) (childList64 el) |}
      end
  end.

(** *** The number a double stands for *)

(** [m * 2^e], the magnitude of a finite double with mantissa [m] and
    exponent [e]. *)
Definition magnitude (m : positive) (e : Z) : Q :=
  inject_Z (Zpos m) * 2 ^ e.

Definition valueSF (f : SpecFloat.spec_float) : Q :=
  match f with
  | SpecFloat.S754_finite s m e =>
      if s then - magnitude m e else magnitude m e
  | _ => 0
  end.

(** The rational a finite double denotes ([0] for both zeros). *)
Definition value (x : float) : Q := valueSF (FloatOps.Prim2SF x).

Definition finiteSF (f : SpecFloat.spec_float) : bool :=
  match f with
  | SpecFloat.S754_zero _ | SpecFloat.S754_finite _ _ _ => true
  | _ => false
  end.

(** Neither [NaN] nor an infinity. *)
Definition finite64 (x : float) : bool := finiteSF (FloatOps.Prim2SF x).

(** Every computed distance is finite. *)
Definition finiteDeltas64 (sl : float) (l : list HTMLElement64) : Prop :=
  Forall (fun child => finite64 (delta64 sl child) = true) l.

(** What the loop variables satisfy once the children [pre] have been
    visited, in terms of the computed distances. *)
Definition closestInv64 (sl : float) (pre : list HTMLElement64)
    (acc : nat * float) : Prop :=
  (pre = [] /\ acc = (0%nat, PrimFloat.infinity))
  \/ (exists child,
        nth_error pre (fst acc) = Some child
        /\ snd acc = delta64 sl child
        /\ (forall j other, nth_error pre j = Some other ->
              value (delta64 sl child) <= value (delta64 sl other))
        /\ (forall j other, (j < fst acc)%nat ->
              nth_error pre j = Some other ->
              value (delta64 sl child) < value (delta64 sl other))).

(** The index with the smallest computed distance, the lowest one among
    equals. *)
Definition nearestFirst64 (sl : float) (l : list HTMLElement64) (i : nat)
    : Prop :=
  exists child,
    nth_error l i = Some child
    /\ (forall j other, nth_error l j = Some other ->
          value (delta64 sl child) <= value (delta64 sl other))
    /\ (forall j other, (j < i)%nat -> nth_error l j = Some other ->
          value (delta64 sl child) < value (delta64 sl other)).

(** The index with the smallest exact distance [|offsetLeft - scrollLeft|],
    the lowest one among equals. *)
Definition nearestFirstExact64 (sl : float) (l : list HTMLElement64) (i : nat)
    : Prop :=
  exists child,
    nth_error l i = Some child
    /\ (forall j other, nth_error l j = Some other ->
          Qabs (value (offsetLeft64 child) - value sl)
          <= Qabs (value (offsetLeft64 other) - value sl))
    /\ (forall j other, (j < i)%nat -> nth_error l j = Some other ->
          Qabs (value (offsetLeft64 child) - value sl)
          < Qabs (value (offsetLeft64 other) - value sl)).

(** *** Sample containers in binary64 *)

(** Cards at -1 and 1, scrolled to [2^-54]: the card at 1 is nearer, by less
    than a double can tell. *)
Definition tieContainer64 : Container64 :=
  {| scrollLeft64 := 0x1p-54;
     scrollWidth64 := 100;
     clientWidth64 := 30;
     children64 := Some [ mkHTMLElement64 (-1); mkHTMLElement64 1 ] |}.

(** A container that reports a negative scroll offset. *)
Definition negativeContainer64 : Container64 :=
  {| scrollLeft64 := (-5);
     scrollWidth64 := 100;
     clientWidth64 := 30;
     children64 := Some [] |}.

(** Scrolled to [1 - 2^-53], a little more than one unit before the end. *)
Definition roundedContainer64 : Container64 :=
  {| scrollLeft64 := 0x1.fffffffffffffp-1;
     scrollWidth64 := 1026;
     clientWidth64 := 1024;
     children64 := Some [] |}.

(** [sampleContainer] in binary64. *)
Definition sampleContainer64 : Container64 :=
  {| scrollLeft64 := 10;
     scrollWidth64 := 100;
     clientWidth64 := 30;
     children64 := Some [ mkHTMLElement64 0; mkHTMLElement64 20;
                          mkHTMLElement64 5; mkHTMLElement64 15 ] |}.

(** A state in which both flags are set. *)
Definition bothEnabled : State :=
  {| canScrollLeft := true; canScrollRight := true; activeIndex := 0 |}.

(** ** Specification of the closest-child loop *)

(** What the two loop variables satisfy once the children [pre] have been
    visited: [closestDelta] is the distance of child [closestIdx], no
    visited child is nearer, and every earlier one is strictly farther. *)
Definition closestInv (sl : Q) (pre : list HTMLElement) (acc : nat * number) : Prop :=
  match snd acc with
  | PosInf => pre = [] /\ fst acc = 0%nat
  | Fin d =>
      (exists child, nth_error pre (fst acc) = Some child /\ d = delta sl child)
      /\ (forall j child, nth_error pre j = Some child -> d <= delta sl child)
      /\ (forall j child, (j < fst acc)%nat -> nth_error pre j = Some child ->
                          d < delta sl child)
  end.

(** The specification of the index the loop leaves in [closestIdx]. *)
Definition nearestFirst (sl : Q) (l : list HTMLElement) (i : nat) : Prop :=
  exists child,
    nth_error l i = Some child
    /\ (forall j other, nth_error l j = Some other ->
                        delta sl child <= delta sl other)
    /\ (forall j other, (j < i)%nat -> nth_error l j = Some other ->
                        delta sl child < delta sl other).

(** The scroll requests the container has received so far. *)
Definition requestsOf (c : Component) : list ScrollToOptions :=
  match containerRef c with
  | Some el => scrollByCalls el
  | None => []
  end.

(** ** Sample inputs *)

(** Four cards at 0, 20, 5 and 15, scrolled to 10: cards 0 and 1 are both 10
    away, cards 2 and 3 both 5 away. *)
Definition sampleContainer : Container :=
  {| scrollLeft := 10;
     scrollWidth := 100;
     clientWidth := 30;
     children := Some [ mkHTMLElement 0; mkHTMLElement 20;
                        mkHTMLElement 5; mkHTMLElement 15 ];
     scrollByCalls := [] |}.

(** Three cards of width 10 from offset 4 on, scrolled to the third. *)
Definition evenContainer : Container :=
  {| scrollLeft := 24;
     scrollWidth := 34;
     clientWidth := 10;
     children := Some [ mkHTMLElement 4; mkHTMLElement 14; mkHTMLElement 24 ];
     scrollByCalls := [] |}.

(** The same three cards, scrolled to [sl]. *)
Definition evenContainerAt (sl : Q) : Container :=
  {| scrollLeft := sl;
     scrollWidth := 34;
     clientWidth := 10;
     children := Some [ mkHTMLElement 4; mkHTMLElement 14; mkHTMLElement 24 ];
     scrollByCalls := [] |}.

(** The three cards and the scroll position of [evenContainerAt 10], all
    moved right by 3. *)
Definition shiftedContainer : Container :=
  {| scrollLeft := 13;
     scrollWidth := 37;
     clientWidth := 10;
     children := Some [ mkHTMLElement 7; mkHTMLElement 17; mkHTMLElement 27 ];
     scrollByCalls := [] |}.

(** Eight cards of width 10, one per built-in testimonial, scrolled to the
    third. *)
Definition eightCards : Container :=
  {| scrollLeft := 20;
     scrollWidth := 80;
     clientWidth := 30;
     children :=
       Some (map (fun i => mkHTMLElement (inject_Z (Z.of_nat i) * 10))
                 (seq 0 8));
     scrollByCalls := [] |}.

Definition pressed (k : string) : KeyboardEvent :=
  {| key := k; defaultPrevented := false |}.

Definition noStarsProps : Props :=
  {| items := None; showStars := Some false; announceChanges := None |}.


Definition mounted (el : Container) : Component :=
  {| containerRef := Some el;
     liveRef := Some {| textContent := EmptyString |};
     state := initialState |}.

(** A mounted carousel whose state already shows card [i] as active. *)
Definition mountedAt (el : Container) (i : nat) : Component :=
  {| containerRef := Some el;
     liveRef := Some {| textContent := EmptyString |};
     state := {| canScrollLeft := false; canScrollRight := true;
                 activeIndex := i |} |}.

Definition unmounted : Component :=
  {| containerRef := None; liveRef := None; state := initialState |}.

Definition defaultProps : Props :=
  {| items := None; showStars := None; announceChanges := None |}.

Definition emptyItemsProps : Props :=
  {| items := Some []; showStars := None; announceChanges := None |}.

(** * Properties *)

(** ** Comparisons *)

Lemma Qltb_lt (x y : Q) : Qltb x y = true <-> x < y.
Proof.
  unfold Qltb. rewrite negb_true_iff. split.
  - intros H. apply Qnot_le_lt. intros Hle.
    apply Qle_bool_iff in Hle. congruence.
  - intros H. destruct (Qle_bool y x) eqn:E; [|reflexivity].
    apply Qle_bool_iff in E. exfalso. exact (Qlt_not_le _ _ H E).
Qed.

Lemma Qltb_ge (x y : Q) : Qltb x y = false <-> y <= x.
Proof.
  unfold Qltb. rewrite negb_false_iff. apply Qle_bool_iff.
Qed.

(** ** The closest-child loop *)

Section Closest.

Variable sl : Q.

Lemma nth_error_snoc (pre : list HTMLElement) (x : HTMLElement) (j : nat)
    (child : HTMLElement) :
  nth_error (pre ++ [x]) j = Some child ->
  ((j < List.length pre)%nat /\ nth_error pre j = Some child)
  \/ (j = List.length pre /\ child = x).
Proof.
  intros H. destruct (Nat.lt_ge_cases j (List.length pre)) as [Hlt | Hge].
  - left. split; [exact Hlt|]. rewrite nth_error_app1 in H; assumption.
  - right. rewrite nth_error_app2 in H by exact Hge.
    destruct (j - List.length pre)%nat as [|m] eqn:E; simpl in H.
    + split; [lia | congruence].
    + destruct m; discriminate.
Qed.

Lemma closestStep_inv (pre : list HTMLElement) (acc : nat * number)
    (child : HTMLElement) :
  closestInv sl pre acc ->
  closestInv sl (pre ++ [child]) (closestStep sl acc child (List.length pre)).
Proof.
  destruct acc as [ci cd]. unfold closestInv, closestStep. simpl.
  destruct cd as [d|]; simpl.
  - intros [[c0 [Hc0 Hd]] [Hmin Hfirst]].
    destruct (Qltb (delta sl child) d) eqn:E; simpl.
    + apply Qltb_lt in E. split; [|split].
      * exists child. split; [|reflexivity].
        rewrite nth_error_app2 by lia. rewrite Nat.sub_diag. reflexivity.
      * intros j c Hj. apply nth_error_snoc in Hj.
        destruct Hj as [[_ Hj] | [_ ->]]; [|apply Qle_refl].
        apply Qlt_le_weak. eapply Qlt_le_trans; [exact E|]. eauto.
      * intros j c Hlt Hj. apply nth_error_snoc in Hj.
        destruct Hj as [[_ Hj] | [Hj _]]; [|lia].
        eapply Qlt_le_trans; [exact E|]. eauto.
    + apply Qltb_ge in E.
      assert (Hci : (ci < List.length pre)%nat).
      { apply nth_error_Some. congruence. }
      split; [|split].
      * exists c0. split; [|exact Hd]. rewrite nth_error_app1; assumption.
      * intros j c Hj. apply nth_error_snoc in Hj.
        destruct Hj as [[_ Hj] | [_ ->]]; eauto.
      * intros j c Hlt Hj. apply nth_error_snoc in Hj.
        destruct Hj as [[_ Hj] | [Hj _]]; [eauto | lia].
  - intros [-> ->]. simpl. split; [|split].
    + exists child. split; reflexivity.
    + intros j c Hj. destruct j as [|[|j]]; simpl in Hj; try discriminate.
      injection Hj as <-. apply Qle_refl.
    + intros j c Hlt. lia.
Qed.

Lemma forEachClosest_inv (suf pre : list HTMLElement) (acc : nat * number) :
  closestInv sl pre acc ->
  closestInv sl (pre ++ suf) (forEachClosest sl suf (List.length pre) acc).
Proof.
  revert pre acc. induction suf as [|child rest IH]; intros pre acc Hinv.
  - simpl. rewrite app_nil_r. exact Hinv.
  - simpl. replace (pre ++ child :: rest) with ((pre ++ [child]) ++ rest)
      by (rewrite <- app_assoc; reflexivity).
    replace (S (List.length pre)) with (List.length (pre ++ [child]))
      by (rewrite length_app; simpl; lia).
    apply IH. apply closestStep_inv. exact Hinv.
Qed.

Lemma closestIdx_nearestFirst (l : list HTMLElement) :
  l <> [] -> nearestFirst sl l (closestIdx sl l).
Proof.
  intros Hne. unfold closestIdx.
  assert (Hinv : closestInv sl ([] ++ l) (forEachClosest sl l (List.length (@nil HTMLElement)) (0%nat, PosInf))).
  { apply forEachClosest_inv. simpl. split; reflexivity. }
  simpl in Hinv. unfold closestInv in Hinv.
  destruct (forEachClosest sl l 0 (0%nat, PosInf)) as [ci cd]. simpl in *.
  destruct cd as [d|].
  - destruct Hinv as [[child [Hc ->]] [Hmin Hfirst]].
    exists child. split; [exact Hc|]. split; assumption.
  - destruct Hinv as [Hnil _]. contradiction.
Qed.

Lemma nearestFirst_lt_length (l : list HTMLElement) (i : nat) :
  nearestFirst sl l i -> (i < List.length l)%nat.
Proof.
  intros [child [Hc _]]. apply nth_error_Some. congruence.
Qed.

(** At most one index is nearest-first. *)
Lemma nearestFirst_unique (l : list HTMLElement) (i j : nat) :
  nearestFirst sl l i -> nearestFirst sl l j -> i = j.
Proof.
  intros [ci [Hi [Hmini Hfi]]] [cj [Hj [Hminj Hfj]]].
  destruct (Nat.lt_trichotomy i j) as [Hlt | [Heq | Hgt]]; [|exact Heq|].
  - exfalso. specialize (Hfj i ci Hlt Hi). specialize (Hmini j cj Hj).
    exact (Qlt_not_le _ _ Hfj Hmini).
  - exfalso. specialize (Hfi j cj Hgt Hj). specialize (Hminj i ci Hi).
    exact (Qlt_not_le _ _ Hfi Hminj).
Qed.

End Closest.

(** ** What [updateScrollState] assigns *)

Lemma updateScrollState_activeIndex (c : Component) (el : Container) :
  containerRef c = Some el ->
  childList el <> [] ->
  activeIndex (state (updateScrollState c))
  = closestIdx (scrollLeft el) (childList el).
Proof.
  intros Hel Hne. unfold updateScrollState. rewrite Hel.
  destruct (childList el) as [|x rest]; [contradiction | reflexivity].
Qed.

Lemma updateScrollState_noArrows_activeIndex (c : Component) (el : Container) :
  containerRef c = Some el ->
  childList el <> [] ->
  activeIndex (state (updateScrollState_noArrows c))
  = closestIdx (scrollLeft el) (childList el).
Proof.
  intros Hel Hne. unfold updateScrollState_noArrows. rewrite Hel.
  destruct (childList el) as [|x rest]; [contradiction | reflexivity].
Qed.

Lemma updateScrollState_flags (c : Component) (el : Container) :
  containerRef c = Some el ->
  canScrollLeft (state (updateScrollState c)) = Qltb 0 (scrollLeft el)
  /\ canScrollRight (state (updateScrollState c))
     = Qltb (scrollLeft el + clientWidth el) (scrollWidth el - 1).
Proof.
  intros Hel. unfold updateScrollState. rewrite Hel.
  destruct (childList el); split; reflexivity.
Qed.

Lemma updateScrollState_refs (c : Component) :
  containerRef (updateScrollState c) = containerRef c
  /\ liveRef (updateScrollState c) = liveRef c.
Proof.
  unfold updateScrollState. destruct (containerRef c) as [el|] eqn:Hel.
  - destruct (childList el); simpl; auto.
  - auto.
Qed.

(** ** Doubles and the numbers they stand for *)

Lemma digits2_pos_bounds (m : positive) :
  (2 ^ (Zpos (SpecFloat.digits2_pos m) - 1) <= Zpos m
   < 2 ^ Zpos (SpecFloat.digits2_pos m))%Z.
Proof.
  induction m as [m IH | m IH |]; cbn [SpecFloat.digits2_pos].
  - rewrite Pos2Z.inj_succ.
    replace (Z.succ (Zpos (SpecFloat.digits2_pos m)) - 1)%Z
      with (Z.succ (Zpos (SpecFloat.digits2_pos m) - 1))%Z by lia.
    rewrite !Z.pow_succ_r by lia. lia.
  - rewrite Pos2Z.inj_succ.
    replace (Z.succ (Zpos (SpecFloat.digits2_pos m)) - 1)%Z
      with (Z.succ (Zpos (SpecFloat.digits2_pos m) - 1))%Z by lia.
    rewrite !Z.pow_succ_r by lia. lia.
  - simpl. lia.
Qed.

(** A valid binary64 mantissa is below [2^53]; above the smallest exponent
    it is at least [2^52]. *)
Lemma bounded_mantissa (m : positive) (e : Z) :
  SpecFloat.bounded FloatOps.prec FloatOps.emax m e = true ->
  (Zpos m < 2 ^ 53)%Z
  /\ ((-1074 < e)%Z -> (2 ^ 52 <= Zpos m)%Z).
Proof.
  unfold SpecFloat.bounded, SpecFloat.canonical_mantissa, SpecFloat.fexp,
    SpecFloat.emin, FloatOps.prec, FloatOps.emax.
  intros H. apply andb_true_iff in H. destruct H as [Hc _].
  apply Z.eqb_eq in Hc.
  pose proof (digits2_pos_bounds m) as [Hlo Hhi].
  set (d := Zpos (SpecFloat.digits2_pos m)) in *.
  assert (Hd : (0 < d)%Z) by (unfold d; lia).
  split.
  - assert (Hle : (d <= 53)%Z) by lia.
    eapply Z.lt_le_trans; [exact Hhi|].
    apply Z.pow_le_mono_r; lia.
  - intros He. assert (Heq : d = 53%Z) by lia.
    rewrite Heq in Hlo. exact Hlo.
Qed.

Lemma two_power_pos (e : Z) : 0 < 2 ^ e.
Proof. apply Qpower_0_lt. reflexivity. Qed.

Lemma magnitude_pos (m : positive) (e : Z) : 0 < magnitude m e.
Proof.
  unfold magnitude. apply Qmult_lt_0_compat; [|apply two_power_pos].
  unfold Qlt. simpl. lia.
Qed.

Lemma magnitude_lt_mantissa (m1 m2 : positive) (e : Z) :
  magnitude m1 e < magnitude m2 e <-> (m1 < m2)%positive.
Proof.
  unfold magnitude. rewrite Qmult_lt_r by apply two_power_pos.
  rewrite <- Zlt_Qlt. reflexivity.
Qed.

Lemma magnitude_lt_exponent (m1 m2 : positive) (e1 e2 : Z) :
  SpecFloat.bounded FloatOps.prec FloatOps.emax m1 e1 = true ->
  SpecFloat.bounded FloatOps.prec FloatOps.emax m2 e2 = true ->
  (e1 < e2)%Z ->
  magnitude m1 e1 < magnitude m2 e2.
Proof.
  intros H1 H2 He.
  destruct (bounded_mantissa m1 e1 H1) as [Hm1 _].
  destruct (bounded_mantissa m2 e2 H2) as [_ Hm2].
  assert (Hmin : (-1074 <= e1)%Z).
  { revert H1. unfold SpecFloat.bounded, SpecFloat.canonical_mantissa,
      SpecFloat.fexp, SpecFloat.emin, FloatOps.prec, FloatOps.emax.
    intros H. apply andb_true_iff in H. destruct H as [Hc _].
    apply Z.eqb_eq in Hc. lia. }
  specialize (Hm2 ltac:(lia)).
  unfold magnitude.
  assert (Q1 : inject_Z (Zpos m1) < 2 ^ 53).
  { rewrite <- (Zpower_Qpower 2 53) by lia. rewrite <- Zlt_Qlt. exact Hm1. }
  assert (Q2 : 2 ^ 52 <= inject_Z (Zpos m2)).
  { rewrite <- (Zpower_Qpower 2 52) by lia. rewrite <- Zle_Qle. exact Hm2. }
  assert (Hne : ~ 2 == 0) by discriminate.
  apply Qlt_le_trans with (2 ^ 53 * 2 ^ e1).
  - apply Qmult_lt_compat_r; [apply two_power_pos | exact Q1].
  - apply Qle_trans with (2 ^ 52 * 2 ^ e2).
    + rewrite <- !Qpower_plus by exact Hne.
      apply Qpower_le_compat_l; [lia | discriminate].
    + apply Qmult_le_compat_r; [exact Q2|].
      apply Qlt_le_weak. apply two_power_pos.
Qed.

(** On finite doubles [<] is the order of the numbers they stand for. *)
Lemma SFltb_valueSF (f1 f2 : SpecFloat.spec_float) :
  SpecFloat.valid_binary FloatOps.prec FloatOps.emax f1 = true ->
  SpecFloat.valid_binary FloatOps.prec FloatOps.emax f2 = true ->
  finiteSF f1 = true -> finiteSF f2 = true ->
  (SpecFloat.SFltb f1 f2 = true <-> valueSF f1 < valueSF f2).
Proof.
  intros V1 V2 F1 F2.
  destruct f1 as [s1 | s1 | | s1 m1 e1]; try discriminate F1;
    destruct f2 as [s2 | s2 | | s2 m2 e2]; try discriminate F2;
    unfold SpecFloat.SFltb, SpecFloat.SFcompare, valueSF.
  - split; [discriminate | intros H; exfalso; lra].
  - pose proof (magnitude_pos m2 e2).
    destruct s2; split; intros H0; try discriminate; try reflexivity; lra.
  - pose proof (magnitude_pos m1 e1).
    destruct s1; split; intros H0; try discriminate; try reflexivity; lra.
  - simpl in V1, V2.
    pose proof (magnitude_pos m1 e1). pose proof (magnitude_pos m2 e2).
    destruct s1, s2.
    + destruct (Z.compare_spec e1 e2) as [Heq | Hlt | Hgt].
      * subst e2.
        change (Pos.compare_cont Eq m1 m2) with (Pos.compare m1 m2).
        rewrite <- Pos.compare_antisym.
        destruct (Pos.compare_spec m2 m1) as [Hm | Hm | Hm].
        -- subst. split; [discriminate | intros H1; lra].
        -- apply (magnitude_lt_mantissa m2 m1 e1) in Hm.
           split; [intros _; lra | reflexivity].
        -- apply (magnitude_lt_mantissa m1 m2 e1) in Hm.
           split; [discriminate | intros H1; lra].
      * pose proof (magnitude_lt_exponent _ _ _ _ V1 V2 Hlt).
        split; [discriminate | intros H2; lra].
      * pose proof (magnitude_lt_exponent _ _ _ _ V2 V1 Hgt).
        split; [intros _; lra | reflexivity].
    + split; [intros _; lra | reflexivity].
    + split; [discriminate | intros H1; lra].
    + destruct (Z.compare_spec e1 e2) as [Heq | Hlt | Hgt].
      * subst e2.
        change (Pos.compare_cont Eq m1 m2) with (Pos.compare m1 m2).
        destruct (Pos.compare_spec m1 m2) as [Hm | Hm | Hm].
        -- subst. split; [discriminate | intros H1; lra].
        -- apply (magnitude_lt_mantissa m1 m2 e1) in Hm.
           split; [intros _; lra | reflexivity].
        -- apply (magnitude_lt_mantissa m2 m1 e1) in Hm.
           split; [discriminate | intros H1; lra].
      * pose proof (magnitude_lt_exponent _ _ _ _ V1 V2 Hlt).
        split; [intros _; lra | reflexivity].
      * pose proof (magnitude_lt_exponent _ _ _ _ V2 V1 Hgt).
        split; [discriminate | intros H2; lra].
Qed.

Lemma ltb_value (x y : float) :
  finite64 x = true -> finite64 y = true ->
  (PrimFloat.ltb x y = true <-> value x < value y).
Proof.
  intros Fx Fy. rewrite FloatAxioms.ltb_spec. unfold value.
  apply SFltb_valueSF; try assumption; apply FloatAxioms.Prim2SF_valid.
Qed.

Lemma ltb_value_false (x y : float) :
  finite64 x = true -> finite64 y = true ->
  (PrimFloat.ltb x y = false <-> value y <= value x).
Proof.
  intros Fx Fy. pose proof (ltb_value x y Fx Fy) as H.
  destruct (PrimFloat.ltb x y).
  - split; [discriminate|]. intros Hle. exfalso.
    apply (Qlt_not_le (value x) (value y)); [apply H; reflexivity | exact Hle].
  - split; [|reflexivity]. intros _. apply Qnot_lt_le. intros Hlt.
    apply H in Hlt. discriminate.
Qed.

Lemma ltb_infinity (x : float) :
  finite64 x = true -> PrimFloat.ltb x PrimFloat.infinity = true.
Proof.
  intros Fx. rewrite FloatAxioms.ltb_spec. unfold finite64 in Fx.
  change (FloatOps.Prim2SF PrimFloat.infinity)
    with (SpecFloat.S754_infinity false).
  destruct (FloatOps.Prim2SF x); try discriminate Fx; reflexivity.
Qed.

Lemma value_abs (x : float) :
  value (PrimFloat.abs x) == Qabs (value x)
  /\ finite64 (PrimFloat.abs x) = finite64 x.
Proof.
  unfold value, finite64. rewrite FloatAxioms.abs_spec.
  destruct (FloatOps.Prim2SF x) as [s | s | | s m e]; simpl;
    try (split; reflexivity).
  pose proof (magnitude_pos m e) as Hpos. split; [|reflexivity].
  destruct s.
  - rewrite Qabs_neg by lra. lra.
  - rewrite Qabs_pos by lra. reflexivity.
Qed.

Lemma value_zero : value PrimFloat.zero == 0.
Proof. reflexivity. Qed.

Lemma value_one : value PrimFloat.one == 1.
Proof. reflexivity. Qed.

(** ** The closest-child loop in binary64 *)

Lemma nth_error_last {A : Type} (pre : list A) (x : A) (j : nat) (y : A) :
  nth_error (pre ++ [x]) j = Some y ->
  ((j < List.length pre)%nat /\ nth_error pre j = Some y)
  \/ (j = List.length pre /\ y = x).
Proof.
  intros H. destruct (Nat.lt_ge_cases j (List.length pre)) as [Hlt | Hge].
  - left. split; [exact Hlt|]. rewrite nth_error_app1 in H; assumption.
  - right. rewrite nth_error_app2 in H by exact Hge.
    destruct (j - List.length pre)%nat as [|k] eqn:E; simpl in H.
    + split; [lia | congruence].
    + destruct k; discriminate.
Qed.

Section Closest64.

Variable sl : float.

Lemma finiteDeltas_nth (l : list HTMLElement64) (j : nat)
    (child : HTMLElement64) :
  finiteDeltas64 sl l -> nth_error l j = Some child ->
  finite64 (delta64 sl child) = true.
Proof.
  intros Hfin Hj. apply nth_error_In in Hj.
  exact (proj1 (Forall_forall _ l) Hfin child Hj).
Qed.

Lemma closestStep64_inv (pre : list HTMLElement64) (acc : nat * float)
    (child : HTMLElement64) :
  finiteDeltas64 sl (pre ++ [child]) ->
  closestInv64 sl pre acc ->
  closestInv64 sl (pre ++ [child])
    (closestStep64 sl acc child (List.length pre)).
Proof.
  intros Hfin Hinv.
  assert (Fchild : finite64 (delta64 sl child) = true).
  { apply (finiteDeltas_nth (pre ++ [child]) (List.length pre));
      [exact Hfin|].
    rewrite nth_error_app2 by lia. rewrite Nat.sub_diag. reflexivity. }
  right. unfold closestStep64.
  destruct Hinv as [[-> ->] | [c0 [Hc0 [Hcd [Hmin Hfirst]]]]].
  - cbn [snd]. rewrite (ltb_infinity _ Fchild). cbn [fst snd].
    exists child. split; [reflexivity|]. split; [reflexivity|]. split.
    + intros j other Hj. destruct j as [|[|j]]; simpl in Hj; try discriminate.
      injection Hj as <-. apply Qle_refl.
    + intros j other Hlt. simpl in Hlt. lia.
  - assert (F0 : finite64 (delta64 sl c0) = true).
    { apply (finiteDeltas_nth (pre ++ [child]) (fst acc)); [exact Hfin|].
      rewrite nth_error_app1; [exact Hc0|].
      apply nth_error_Some. congruence. }
    assert (Hci : (fst acc < List.length pre)%nat).
    { apply nth_error_Some. congruence. }
    rewrite Hcd.
    destruct (PrimFloat.ltb (delta64 sl child) (delta64 sl c0)) eqn:E.
    + apply (ltb_value _ _ Fchild F0) in E. cbn [fst snd].
      exists child. split; [|split; [reflexivity|split]].
      * rewrite nth_error_app2 by lia. rewrite Nat.sub_diag. reflexivity.
      * intros j other Hj. apply nth_error_last in Hj.
        destruct Hj as [[_ Hj] | [_ ->]]; [|apply Qle_refl].
        apply Qlt_le_weak. eapply Qlt_le_trans; [exact E|]. eauto.
      * intros j other Hlt Hj. apply nth_error_last in Hj.
        destruct Hj as [[_ Hj] | [Hj _]]; [|lia].
        eapply Qlt_le_trans; [exact E|]. eauto.
    + apply (ltb_value_false _ _ Fchild F0) in E.
      exists c0. split; [|split; [exact Hcd|split]].
      * rewrite nth_error_app1; assumption.
      * intros j other Hj. apply nth_error_last in Hj.
        destruct Hj as [[_ Hj] | [_ ->]]; eauto.
      * intros j other Hlt Hj. apply nth_error_last in Hj.
        destruct Hj as [[_ Hj] | [Hj _]]; [eauto | lia].
Qed.

Lemma forEachClosest64_inv (suf pre : list HTMLElement64) (acc : nat * float) :
  finiteDeltas64 sl (pre ++ suf) ->
  closestInv64 sl pre acc ->
  closestInv64 sl (pre ++ suf)
    (forEachClosest64 sl suf (List.length pre) acc).
Proof.
  revert pre acc. induction suf as [|child rest IH]; intros pre acc Hfin Hinv.
  - simpl. rewrite app_nil_r. exact Hinv.
  - simpl.
    assert (Happ : pre ++ child :: rest = (pre ++ [child]) ++ rest)
      by (rewrite <- app_assoc; reflexivity).
    rewrite Happ in Hfin |- *.
    replace (S (List.length pre)) with (List.length (pre ++ [child]))
      by (rewrite length_app; simpl; lia).
    apply IH; [exact Hfin|]. apply closestStep64_inv; [|exact Hinv].
    unfold finiteDeltas64 in *. apply Forall_app in Hfin. tauto.
Qed.

Lemma closestIdx64_nearestFirst (l : list HTMLElement64) :
  l <> [] -> finiteDeltas64 sl l ->
  nearestFirst64 sl l (closestIdx64 sl l).
Proof.
  intros Hne Hfin. unfold closestIdx64.
  assert (Hinv : closestInv64 sl ([] ++ l)
                   (forEachClosest64 sl l (List.length (@nil HTMLElement64))
                      (0%nat, PrimFloat.infinity))).
  { apply forEachClosest64_inv; [exact Hfin|]. left. split; reflexivity. }
  simpl in Hinv.
  destruct Hinv as [[Hnil _] | [child [Hc [_ [Hmin Hfirst]]]]];
    [contradiction|].
  exists child. split; [exact Hc|]. split; assumption.
Qed.

Lemma nearestFirst64_unique (l : list HTMLElement64) (i j : nat) :
  nearestFirst64 sl l i -> nearestFirst64 sl l j -> i = j.
Proof.
  intros [ci [Hi [Hmini Hfi]]] [cj [Hj [Hminj Hfj]]].
  destruct (Nat.lt_trichotomy i j) as [Hlt | [Heq | Hgt]]; [|exact Heq|].
  - exfalso. specialize (Hfj i ci Hlt Hi). specialize (Hmini j cj Hj).
    exact (Qlt_not_le _ _ Hfj Hmini).
  - exfalso. specialize (Hfi j cj Hgt Hj). specialize (Hminj i ci Hi).
    exact (Qlt_not_le _ _ Hfi Hminj).
Qed.

(** Where every subtraction is exact the computed distance is the exact
    one. *)
Lemma nearestFirst64_exact (l : list HTMLElement64) (i : nat) :
  (forall child, In child l ->
     value (PrimFloat.sub (offsetLeft64 child) sl)
     == value (offsetLeft64 child) - value sl) ->
  nearestFirst64 sl l i -> nearestFirstExact64 sl l i.
Proof.
  intros Hexact [child [Hc [Hmin Hfirst]]].
  assert (Hd : forall j other, nth_error l j = Some other ->
            value (delta64 sl other)
            == Qabs (value (offsetLeft64 other) - value sl)).
  { intros j other Hj. unfold delta64.
    rewrite (proj1 (value_abs _)). apply Qabs_wd.
    apply Hexact. apply (nth_error_In l j). exact Hj. }
  exists child. split; [exact Hc|]. split.
  - intros j other Hj.
    rewrite <- (Hd i child Hc), <- (Hd j other Hj). eapply Hmin. exact Hj.
  - intros j other Hlt Hj.
    rewrite <- (Hd i child Hc), <- (Hd j other Hj). eapply Hfirst; eassumption.
Qed.

End Closest64.

Lemma updateScrollState64_activeIndex (el : Container64) (s : State) :
  childList64 el <> [] ->
  activeIndex (updateScrollState64 (Some el) s)
  = closestIdx64 (scrollLeft64 el) (childList64 el)
  /\ activeIndex (updateScrollState_noArrows64 (Some el) s)
     = closestIdx64 (scrollLeft64 el) (childList64 el).
Proof.
  intros Hne. unfold updateScrollState64, updateScrollState_noArrows64.
  destruct (childList64 el) as [|x rest]; [contradiction|].
  split; reflexivity.
Qed.

(** C1, as the code computes it.  On an available container with at least
    one child and finite computed distances, the index that
    [updateScrollState] stores in [activeIndex] is the index of the child
    whose distance [Math.abs(offsetLeft - scrollLeft)], as computed in
    binary64, is smallest; among children at equal computed distance the
    lowest index wins, and no other index has this property.  Whenever every
    subtraction [offsetLeft - scrollLeft] is exact, it is the child at the
    smallest exact distance.  The revision without arrow buttons stores the
    same index. *)
Theorem updateScrollState64_activeIndex_nearest_first
    (el : Container64) (s : State) :
  childList64 el <> [] ->
  finiteDeltas64 (scrollLeft64 el) (childList64 el) ->
  let i := activeIndex (updateScrollState64 (Some el) s) in
  nearestFirst64 (scrollLeft64 el) (childList64 el) i
  /\ (forall i', nearestFirst64 (scrollLeft64 el) (childList64 el) i' -> i' = i)
  /\ ((forall child, In child (childList64 el) ->
         value (PrimFloat.sub (offsetLeft64 child) (scrollLeft64 el))
         == value (offsetLeft64 child) - value (scrollLeft64 el)) ->
      nearestFirstExact64 (scrollLeft64 el) (childList64 el) i)
  /\ activeIndex (updateScrollState_noArrows64 (Some el) s) = i.
Proof.
  intros Hne Hfin i.
  destruct (updateScrollState64_activeIndex el s Hne) as [Hi Hi'].
  fold i in Hi.
  pose proof (closestIdx64_nearestFirst (scrollLeft64 el) (childList64 el)
                Hne Hfin) as Hnf.
  rewrite <- Hi in Hnf.
  split; [exact Hnf|]. split; [|split].
  - intros i' Hi0. eapply nearestFirst64_unique; eassumption.
  - intros Hexact. apply nearestFirst64_exact; assumption.
  - rewrite Hi'. symmetry. exact Hi.
Qed.

(** C2, as the code computes it.  On an available container with a finite
    [scrollLeft], [updateScrollState] sets [canScrollLeft] to
    [scrollLeft > 0]: it is false exactly when [scrollLeft <= 0], hence
    exactly when [scrollLeft] is [0] if the offset is not negative.  It sets
    [canScrollRight] to [scrollLeft + clientWidth < scrollWidth - 1] with the
    sum and the difference computed in binary64: it is false exactly when the
    computed difference does not exceed the computed sum, and, whenever both
    operations are exact, exactly when at most one unit is left to the
    maximum offset [scrollWidth - clientWidth].  [updateScrollButtons] of the
    first revision sets the same two flags. *)
Theorem updateScrollState64_boundary_flags (el : Container64) (s : State) :
  finite64 (scrollLeft64 el) = true ->
  let st := updateScrollState64 (Some el) s in
  let sum := PrimFloat.add (scrollLeft64 el) (clientWidth64 el) in
  let bound := PrimFloat.sub (scrollWidth64 el) PrimFloat.one in
  canScrollLeft st = PrimFloat.ltb PrimFloat.zero (scrollLeft64 el)
  /\ canScrollRight st = PrimFloat.ltb sum bound
  /\ (canScrollLeft st = false <-> value (scrollLeft64 el) <= 0)
  /\ (0 <= value (scrollLeft64 el) ->
      (canScrollLeft st = false <-> value (scrollLeft64 el) == 0))
  /\ (finite64 sum = true -> finite64 bound = true ->
      (canScrollRight st = false <-> value bound <= value sum)
      /\ (value sum == value (scrollLeft64 el) + value (clientWidth64 el) ->
          value bound == value (scrollWidth64 el) - 1 ->
          (canScrollRight st = false <->
           value (scrollWidth64 el) - value (clientWidth64 el)
             - value (scrollLeft64 el) <= 1)))
  /\ canScrollLeft (updateScrollButtons64 (Some el) s) = canScrollLeft st
  /\ canScrollRight (updateScrollButtons64 (Some el) s) = canScrollRight st.
Proof.
  intros Fsl st sum bound.
  assert (HL : canScrollLeft st
               = PrimFloat.ltb PrimFloat.zero (scrollLeft64 el)).
  { unfold st, updateScrollState64. destruct (childList64 el); reflexivity. }
  assert (HR : canScrollRight st = PrimFloat.ltb sum bound).
  { unfold st, updateScrollState64. destruct (childList64 el); reflexivity. }
  assert (Fzero : finite64 PrimFloat.zero = true) by reflexivity.
  pose proof (ltb_value_false _ _ Fzero Fsl) as Hleft.
  rewrite value_zero in Hleft.
  split; [exact HL|]. split; [exact HR|]. rewrite HL, HR.
  split; [exact Hleft|]. split; [|split; [|split]].
  - intros Hnonneg. rewrite Hleft. split; intros H; lra.
  - intros Fsum Fbound.
    pose proof (ltb_value_false _ _ Fsum Fbound) as Hright.
    split; [exact Hright|].
    intros Esum Ebound. rewrite Hright, Esum, Ebound. split; intros H; lra.
  - reflexivity.
  - reflexivity.
Qed.

(** ** Evenly spaced children *)

Section EvenLayout.

Variables (sl base width : Q) (l : list HTMLElement) (k : nat).

Hypothesis width_pos : 0 < width.
Hypothesis k_in_range : (k < List.length l)%nat.
Hypothesis layout :
  forall i child, nth_error l i = Some child ->
    offsetLeft child == base + inject_Z (Z.of_nat i) * width.
Hypothesis scrolled_to_k : sl == base + inject_Z (Z.of_nat k) * width.

Lemma even_delta_at_k (child : HTMLElement) :
  nth_error l k = Some child -> delta sl child <= 0.
Proof.
  intros Hc. unfold delta. apply Qabs_Qle_condition.
  pose proof (layout k child Hc) as Ho. split; lra.
Qed.

Lemma even_delta_elsewhere (j : nat) (other : HTMLElement) :
  j <> k -> nth_error l j = Some other -> 0 < delta sl other.
Proof.
  intros Hjk Hj. unfold delta.
  pose proof (layout j other Hj) as Ho.
  destruct (Nat.lt_trichotomy j k) as [Hlt | [Heq | Hgt]]; [|contradiction|].
  - assert (Hq : inject_Z (Z.of_nat j) < inject_Z (Z.of_nat k)).
    { rewrite <- Zlt_Qlt. lia. }
    pose proof (Qmult_lt_compat_r _ _ width width_pos Hq) as Hm.
    rewrite Qabs_Qminus. apply Qabs_gt. lra.
  - assert (Hq : inject_Z (Z.of_nat k) < inject_Z (Z.of_nat j)).
    { rewrite <- Zlt_Qlt. lia. }
    pose proof (Qmult_lt_compat_r _ _ width width_pos Hq) as Hm.
    apply Qabs_gt. lra.
Qed.

Lemma even_nearestFirst : nearestFirst sl l k.
Proof.
  destruct (nth_error l k) as [child|] eqn:Hc.
  - exists child. split; [exact Hc|]. split.
    + intros j other Hj. eapply Qle_trans.
      * apply even_delta_at_k. exact Hc.
      * unfold delta. apply Qabs_nonneg.
    + intros j other Hlt Hj. eapply Qle_lt_trans.
      * apply even_delta_at_k. exact Hc.
      * apply (even_delta_elsewhere j); [lia | exact Hj].
  - exfalso. apply nth_error_None in Hc. lia.
Qed.

Lemma even_closestIdx : closestIdx sl l = k.
Proof.
  apply (nearestFirst_unique sl l).
  - apply closestIdx_nearestFirst. intros ->. simpl in k_in_range. lia.
  - exact even_nearestFirst.
Qed.

End EvenLayout.

(** C8.  A container has [N] children, child [i] at
    [offsetLeft = base + i * width] with [width > 0] (equal widths, left to
    right, no gaps), and is scrolled exactly to the [offsetLeft] of child
    [k < N]: [updateScrollState] then stores [activeIndex = k]. *)
Theorem updateScrollState_even_layout
    (c : Component) (el : Container) (N k : nat) (base width : Q) :
  containerRef c = Some el ->
  List.length (childList el) = N ->
  (k < N)%nat ->
  0 < width ->
  (forall i child, nth_error (childList el) i = Some child ->
     offsetLeft child == base + inject_Z (Z.of_nat i) * width) ->
  scrollLeft el == base + inject_Z (Z.of_nat k) * width ->
  activeIndex (state (updateScrollState c)) = k.
Proof.
  intros Hel HN Hk Hw Hlayout Hscroll.
  rewrite (updateScrollState_activeIndex c el Hel).
  - apply (even_closestIdx (scrollLeft el) base width); try assumption. lia.
  - intros Hnil. rewrite Hnil in HN. simpl in HN. lia.
Qed.

(** ** Missing container, empty child list *)

(** C6.  While the container ref is [null], [updateScrollState] and
    [scrollByViewport] return the component as it was: no flag, no index, no
    ref changes and no scroll is requested.  The same holds for the two
    earlier revisions of the update function. *)
Theorem unavailable_container_noop (c : Component) :
  containerRef c = None ->
  updateScrollState c = c
  /\ (forall dir, scrollByViewport dir c = c)
  /\ updateScrollButtons c = c
  /\ updateScrollState_noArrows c = c.
Proof.
  intros Hnone.
  unfold updateScrollState, scrollByViewport, updateScrollButtons,
    updateScrollState_noArrows.
  rewrite Hnone. repeat split.
Qed.


(** ** Determinism *)

Lemma map_offsetLeft_inj (l1 l2 : list HTMLElement) :
  map offsetLeft l1 = map offsetLeft l2 -> l1 = l2.
Proof.
  revert l2. induction l1 as [|[o1] r1 IH]; intros [|[o2] r2] H;
    simpl in H; try discriminate; [reflexivity|].
  injection H as Ho Hr. rewrite Ho, (IH r2 Hr). reflexivity.
Qed.

Lemma updateScrollState_idem (c : Component) :
  updateScrollState (updateScrollState c) = updateScrollState c.
Proof.
  destruct c as [[el|] lr st]; [|reflexivity].
  unfold updateScrollState.
  cbn [containerRef]. destruct (childList el) as [|x rest] eqn:Hch;
    unfold setActiveIndex, setCanScrollRight, setCanScrollLeft;
    cbn [containerRef liveRef state canScrollLeft canScrollRight activeIndex];
    rewrite Hch; reflexivity.
Qed.

(** C9.  The view state after [updateScrollState] is determined by the
    geometry ([scrollLeft], [scrollWidth], [clientWidth] and the children's
    [offsetLeft]) and the state before: two components that agree on those
    end in the same view state; with at least one child the state before
    does not matter at all.  A second call on unchanged geometry changes
    nothing. *)
Theorem updateScrollState_deterministic
    (c1 c2 : Component) (el1 el2 : Container) :
  containerRef c1 = Some el1 ->
  containerRef c2 = Some el2 ->
  scrollLeft el1 = scrollLeft el2 ->
  scrollWidth el1 = scrollWidth el2 ->
  clientWidth el1 = clientWidth el2 ->
  map offsetLeft (childList el1) = map offsetLeft (childList el2) ->
  (state c1 = state c2 ->
   state (updateScrollState c1) = state (updateScrollState c2))
  /\ (childList el1 <> [] ->
      state (updateScrollState c1) = state (updateScrollState c2))
  /\ updateScrollState (updateScrollState c1) = updateScrollState c1
  /\ (forall c, updateScrollState (updateScrollState c) = updateScrollState c).
Proof.
  intros H1 H2 Hsl Hsw Hcw Hch. apply map_offsetLeft_inj in Hch.
  split; [|split; [|split]].
  - intros Hst. unfold updateScrollState. rewrite H1, H2.
    rewrite <- Hch, <- Hsl, <- Hsw, <- Hcw.
    destruct (childList el1); simpl; try rewrite Hst; reflexivity.
  - intros Hne. unfold updateScrollState. rewrite H1, H2.
    rewrite <- Hch, <- Hsl, <- Hsw, <- Hcw.
    destruct (childList el1); [contradiction | reflexivity].
  - apply updateScrollState_idem.
  - apply updateScrollState_idem.
Qed.

(** ** Range of [activeIndex] *)

Lemma updateScrollState_activeIndex_lt (c : Component) (el : Container) :
  containerRef c = Some el ->
  childList el <> [] ->
  (activeIndex (state (updateScrollState c)) < List.length (childList el))%nat.
Proof.
  intros Hel Hne. rewrite (updateScrollState_activeIndex c el Hel Hne).
  apply (nearestFirst_lt_length (scrollLeft el)).
  apply closestIdx_nearestFirst. exact Hne.
Qed.

Lemma notify_activeIndex_lt (n : nat) (c : Component) (ref : option Container) :
  (0 < n)%nat ->
  (forall el, ref = Some el -> List.length (childList el) = n) ->
  (activeIndex (state c) < n)%nat ->
  (activeIndex (state (notify c ref)) < n)%nat.
Proof.
  intros Hn Hlen Hlt. unfold notify.
  destruct ref as [el|].
  - destruct (childList el) as [|x rest] eqn:Hch.
    + specialize (Hlen el eq_refl). rewrite Hch in Hlen. simpl in Hlen. lia.
    + rewrite <- (Hlen el eq_refl).
      apply updateScrollState_activeIndex_lt; [reflexivity|].
      rewrite Hch. discriminate.
  - exact Hlt.
Qed.

(** C10.  Whatever [updateScrollState] assigns to [activeIndex] is a valid
    index into the container's child list.  Consequently, starting from the
    initial state ([activeIndex = 0]) and for a non-empty list of [n] items,
    after any sequence of notifications whose container, when available, has
    [n] children, [activeIndex] is below [n]. *)
Theorem activeIndex_always_valid
    (n : nat) (c0 : Component) (refs : list (option Container)) :
  (0 < n)%nat ->
  state c0 = initialState ->
  Forall (fun ref => forall el, ref = Some el ->
                                List.length (childList el) = n) refs ->
  (activeIndex (state (runNotifications c0 refs)) < n)%nat
  /\ (forall c el, containerRef c = Some el -> childList el <> [] ->
        (activeIndex (state (updateScrollState c))
         < List.length (childList el))%nat).
Proof.
  intros Hn Hinit Hall. split.
  - assert (H0 : (activeIndex (state c0) < n)%nat).
    { rewrite Hinit. simpl. exact Hn. }
    clear Hinit. unfold runNotifications.
    revert c0 H0. induction Hall as [|ref rest Href _ IH]; intros c0 H0.
    + exact H0.
    + simpl. apply IH. apply notify_activeIndex_lt; assumption.
  - intros c el. apply updateScrollState_activeIndex_lt.
Qed.

(** ** Keyboard navigation *)

Lemma scrollByViewport_request (dir : Q) (c : Component) (el : Container) :
  containerRef c = Some el ->
  requestsOf (scrollByViewport dir c)
  = requestsOf c ++ [ {| left := dir * clientWidth el; behavior := "smooth" |} ].
Proof.
  intros Hel. unfold requestsOf, scrollByViewport. rewrite Hel. reflexivity.
Qed.

(** C5.  With the container available, [ArrowRight] adds exactly one scroll
    request whose [left] is [1 * clientWidth] (that is, [+clientWidth]) and
    [ArrowLeft] exactly one whose [left] is [-1 * clientWidth]; both suppress
    the default action.  Any other key leaves the event and the component as
    they were: nothing is requested and [preventDefault] is not called.  In
    general [scrollByViewport dir] requests [dir * clientWidth] and touches
    neither the view state nor the live region. *)
Theorem onKeyDown_scrolls_one_viewport
    (e : KeyboardEvent) (c : Component) (el : Container) :
  containerRef c = Some el ->
  (key e = "ArrowRight"%string ->
     requestsOf (snd (onKeyDown e c))
     = requestsOf c ++ [ {| left := 1 * clientWidth el; behavior := "smooth" |} ]
     /\ 1 * clientWidth el == clientWidth el
     /\ defaultPrevented (fst (onKeyDown e c)) = true)
  /\ (key e = "ArrowLeft"%string ->
     requestsOf (snd (onKeyDown e c))
     = requestsOf c ++ [ {| left := (-1) * clientWidth el; behavior := "smooth" |} ]
     /\ (-1) * clientWidth el == - clientWidth el
     /\ defaultPrevented (fst (onKeyDown e c)) = true)
  /\ (key e <> "ArrowRight"%string -> key e <> "ArrowLeft"%string ->
     onKeyDown e c = (e, c))
  /\ (forall dir,
     requestsOf (scrollByViewport dir c)
     = requestsOf c ++ [ {| left := dir * clientWidth el; behavior := "smooth" |} ]
     /\ state (scrollByViewport dir c) = state c
     /\ liveRef (scrollByViewport dir c) = liveRef c).
Proof.
  intros Hel. split; [|split; [|split]].
  - intros Hk. unfold onKeyDown. rewrite Hk. simpl.
    split; [apply scrollByViewport_request; exact Hel|].
    split; [lra | reflexivity].
  - intros Hk. unfold onKeyDown. rewrite Hk. simpl.
    split; [apply scrollByViewport_request; exact Hel|].
    split; [lra | reflexivity].
  - intros Hr Hl. unfold onKeyDown.
    apply String.eqb_neq in Hr. apply String.eqb_neq in Hl.
    rewrite Hr, Hl. reflexivity.
  - intros dir. split; [apply scrollByViewport_request; exact Hel|].
    unfold scrollByViewport. rewrite Hel. split; reflexivity.
Qed.

(** ** Announcements *)

Lemma sameDeps_activeIndex (a b : Deps) :
  depActiveIndex a <> depActiveIndex b -> sameDeps a b = false.
Proof.
  intros Hne. unfold sameDeps. apply Nat.eqb_neq in Hne. rewrite Hne.
  reflexivity.
Qed.

Lemma announceEffect_writes (p : Props) (c : Component) (live : LiveRegion)
    (current : Testimonial) :
  withDefault true (announceChanges p) = true ->
  liveRef c = Some live ->
  nth_error (testimonials (items p)) (activeIndex (state c)) = Some current ->
  announceEffect p c
  = {| containerRef := containerRef c;
       liveRef :=
         Some {| textContent :=
                   announcement (activeIndex (state c))
                     (List.length (testimonials (items p))) current |};
       state := state c |}.
Proof.
  intros Hon Hlive Hcur. unfold announceEffect.
  rewrite Hon, Hlive, Hcur. reflexivity.
Qed.

(** C4.  Announcements are enabled ([announceChanges] true or omitted), the
    live region is mounted and the item at [activeIndex] exists.  Then the
    commit that follows a change of [activeIndex] (and the first commit)
    replaces the live region's text by
    [Showing testimonial {activeIndex+1} of {totalSlides}: {name}, {role}]
    for that item, and changes nothing else. *)
Theorem announcement_on_activeIndex_change
    (p : Props) (c : Component) (prev : option Deps) (memo : nat)
    (live : LiveRegion) (current : Testimonial) :
  withDefault true (announceChanges p) = true ->
  liveRef c = Some live ->
  nth_error (testimonials (items p)) (activeIndex (state c)) = Some current ->
  (forall d, prev = Some d -> depActiveIndex d <> activeIndex (state c)) ->
  liveRef (commitAnnounce prev memo p c)
  = Some {| textContent :=
              ("Showing testimonial " ++ decimal (activeIndex (state c) + 1)
               ++ " of " ++ decimal (List.length (testimonials (items p)))
               ++ ": " ++ name current ++ ", " ++ role current)%string |}
  /\ containerRef (commitAnnounce prev memo p c) = containerRef c
  /\ state (commitAnnounce prev memo p c) = state c.
Proof.
  intros Hon Hlive Hcur Hchg.
  assert (Hrun : commitAnnounce prev memo p c = announceEffect p c).
  { unfold commitAnnounce. destruct prev as [d|]; [|reflexivity].
    rewrite sameDeps_activeIndex; [reflexivity|].
    simpl. apply Hchg. reflexivity. }
  rewrite Hrun, (announceEffect_writes p c live current Hon Hlive Hcur).
  repeat split.
Qed.

(** ** Rendering *)

Lemma mapIndexed_length {A B : Type} (f : A -> nat -> B) (l : list A) (idx : nat) :
  List.length (mapIndexed f l idx) = List.length l.
Proof.
  revert idx. induction l as [|a rest IH]; intros idx; simpl;
    [reflexivity | rewrite IH; reflexivity].
Qed.

(** C3 as the code has it.  An empty [items] array is treated like an omitted
    one: the eight built-in testimonials are rendered, one card each, and with
    announcements enabled and the live region mounted the effect writes the
    announcement of the built-in item at [activeIndex]. *)
Theorem empty_items_render_defaults (p : Props) :
  items p = Some [] ->
  testimonials (items p) = defaultTestimonials
  /\ List.length (renderCards p) = 8%nat
  /\ renderCards p
     = renderCards {| items := None;
                      showStars := showStars p;
                      announceChanges := announceChanges p |}
  /\ (forall c live current,
        withDefault true (announceChanges p) = true ->
        liveRef c = Some live ->
        nth_error defaultTestimonials (activeIndex (state c)) = Some current ->
        liveRef (announceEffect p c)
        = Some {| textContent :=
                    announcement (activeIndex (state c)) 8 current |}).
Proof.
  intros Hitems.
  assert (Hts : testimonials (items p) = defaultTestimonials).
  { rewrite Hitems. reflexivity. }
  split; [exact Hts|]. split; [|split].
  - unfold renderCards. rewrite mapIndexed_length, Hts. reflexivity.
  - unfold renderCards. simpl. rewrite Hts. reflexivity.
  - intros c live current Hon Hlive Hcur.
    rewrite (announceEffect_writes p c live current Hon Hlive);
      rewrite Hts; [reflexivity | exact Hcur].
Qed.

(** * The properties at sample inputs *)

(** The tie between cards 2 and 3 (both 5 away from [scrollLeft = 10]) goes
    to card 2; cards 0 and 1 are farther. *)
Example sample_closestIdx :
  closestIdx 10 (childList sampleContainer) = 2%nat.
Proof. reflexivity. Qed.

Example sample_state :
  state (updateScrollState (mounted sampleContainer))
  = {| canScrollLeft := true; canScrollRight := true; activeIndex := 2 |}.
Proof. reflexivity. Qed.

Example default_announcement :
  liveRef (commitAnnounce None 0 defaultProps (mounted sampleContainer))
  = Some {| textContent :=
              "Showing testimonial 1 of 8: Alex Johnson, Product Manager, Bluewave" |}.
Proof. reflexivity. Qed.

(** C1, refuted as stated.  Cards at -1 and 1, scrolled to [2^-54]: the card
    at index 1 is strictly nearer, but both distances are computed as
    [1.0], so [updateScrollState] stores index 0, which is not the index of
    the child at the smallest exact distance. *)
Lemma updateScrollState64_nearer_child_not_chosen :
  childList64 tieContainer64 = [ mkHTMLElement64 (-1); mkHTMLElement64 1 ]
  /\ value (scrollLeft64 tieContainer64) == 1 # 18014398509481984
  /\ value (-1)%float == -1
  /\ value 1%float == 1
  /\ delta64 (scrollLeft64 tieContainer64) (mkHTMLElement64 (-1)) = 1%float
  /\ delta64 (scrollLeft64 tieContainer64) (mkHTMLElement64 1) = 1%float
  /\ activeIndex
       (updateScrollState64 (Some tieContainer64)
          {| canScrollLeft := false; canScrollRight := true;
             activeIndex := 1 |}) = 0%nat
  /\ Qabs (value 1%float - value (scrollLeft64 tieContainer64))
     < Qabs (value (-1)%float - value (scrollLeft64 tieContainer64))
  /\ ~ nearestFirstExact64 (scrollLeft64 tieContainer64)
         (childList64 tieContainer64)
         (activeIndex
            (updateScrollState64 (Some tieContainer64)
               {| canScrollLeft := false; canScrollRight := true;
                  activeIndex := 1 |})).
Proof.
  split; [reflexivity|]. split; [reflexivity|]. split; [reflexivity|].
  split; [reflexivity|]. split; [reflexivity|]. split; [reflexivity|].
  split; [reflexivity|]. split; [reflexivity|].
  intros [child [Hchild [Hmin _]]].
  change (nth_error (childList64 tieContainer64) 0
          = Some child) in Hchild.
  injection Hchild as <-.
  specialize (Hmin 1%nat (mkHTMLElement64 1) eq_refl).
  revert Hmin. vm_compute. intros H. apply H. reflexivity.
Qed.

(** C2, refuted as stated.  At [scrollLeft = -5] [canScrollLeft] is set to
    false although [scrollLeft] is not [0]; at [scrollLeft = 1 - 2^-53],
    [clientWidth = 1024], [scrollWidth = 1026] the sum is computed as [1025],
    so [canScrollRight] is set to false although [1 + 2^-53] units, more than
    one, are left to the maximum offset. *)
Lemma updateScrollState64_flags_not_as_claimed :
  canScrollLeft (updateScrollState64 (Some negativeContainer64) bothEnabled)
  = false
  /\ value (scrollLeft64 negativeContainer64) == -5
  /\ ~ value (scrollLeft64 negativeContainer64) == 0
  /\ canScrollRight (updateScrollState64 (Some roundedContainer64) bothEnabled)
     = false
  /\ PrimFloat.add (scrollLeft64 roundedContainer64)
       (clientWidth64 roundedContainer64) = 1025%float
  /\ value (scrollWidth64 roundedContainer64)
       - value (clientWidth64 roundedContainer64)
       - value (scrollLeft64 roundedContainer64)
     == 1 + (1 # 9007199254740992)
  /\ ~ (value (scrollWidth64 roundedContainer64)
          - value (clientWidth64 roundedContainer64)
          - value (scrollLeft64 roundedContainer64) <= 1).
Proof.
  split; [reflexivity|]. split; [reflexivity|]. split; [discriminate|].
  split; [reflexivity|]. split; [reflexivity|]. split; [reflexivity|].
  vm_compute. intros H. apply H. reflexivity.
Qed.

Lemma updateScrollState64_activeIndex_nearest_first_witness :
  childList64 sampleContainer64 <> []
  /\ finiteDeltas64 (scrollLeft64 sampleContainer64)
       (childList64 sampleContainer64)
  /\ activeIndex (updateScrollState64 (Some sampleContainer64) initialState)
     = 2%nat
  /\ nearestFirstExact64 (scrollLeft64 sampleContainer64)
       (childList64 sampleContainer64) 2.
Proof.
  assert (Hne : childList64 sampleContainer64 <> [])
    by (vm_compute; discriminate).
  assert (Hfin : finiteDeltas64 (scrollLeft64 sampleContainer64)
                   (childList64 sampleContainer64))
    by (unfold finiteDeltas64; repeat constructor).
  split; [exact Hne|]. split; [exact Hfin|]. split; [reflexivity|].
  refine (proj1 (proj2 (proj2 (updateScrollState64_activeIndex_nearest_first
                                 sampleContainer64 initialState Hne Hfin))) _).
  intros child Hin.
  repeat (destruct Hin as [<- | Hin]; [reflexivity|]).
  destruct Hin.
Defined.

Lemma updateScrollState64_boundary_flags_witness :
  finite64 (scrollLeft64 sampleContainer64) = true
  /\ (canScrollRight (updateScrollState64 (Some sampleContainer64) initialState)
      = false
      <-> value (scrollWidth64 sampleContainer64)
            - value (clientWidth64 sampleContainer64)
            - value (scrollLeft64 sampleContainer64) <= 1).
Proof.
  split; [reflexivity|].
  refine (proj2 (proj1 (proj2 (proj2 (proj2 (proj2
            (updateScrollState64_boundary_flags
               sampleContainer64 initialState eq_refl)))))
            eq_refl eq_refl) _ _); reflexivity.
Defined.

(** C3, refuted as stated: with [items = []] the render has eight cards, not
    none, and the first commit writes an announcement into the (empty) live
    region. *)
Lemma empty_items_still_render :
  items emptyItemsProps = Some []
  /\ List.length (renderCards emptyItemsProps) = 8%nat
  /\ List.length (renderCards emptyItemsProps) <> 0%nat
  /\ liveRef (mounted sampleContainer) = Some {| textContent := EmptyString |}
  /\ liveRef (commitAnnounce None 0 emptyItemsProps (mounted sampleContainer))
     = Some {| textContent :=
                 "Showing testimonial 1 of 8: Alex Johnson, Product Manager, Bluewave" |}.
Proof.
  split; [reflexivity|]. split; [reflexivity|]. split; [discriminate|].
  split; reflexivity.
Qed.

Lemma empty_items_render_defaults_witness :
  items emptyItemsProps = Some []
  /\ List.length (renderCards emptyItemsProps) = 8%nat.
Proof.
  split; [reflexivity|].
  exact (proj1 (proj2 (empty_items_render_defaults emptyItemsProps eq_refl))).
Defined.

Lemma announcement_on_activeIndex_change_witness :
  withDefault true (announceChanges defaultProps) = true
  /\ liveRef (commitAnnounce
                (Some {| depActiveIndex := 1; depTestimonials := 0;
                         depTotalSlides := 8; depAnnounceChanges := true |})
                0 defaultProps (mountedAt sampleContainer 2))
     = Some {| textContent :=
                 "Showing testimonial 3 of 8: Marcus Lee, CTO, NorthStar" |}.
Proof.
  split; [reflexivity|].
  refine (proj1 (announcement_on_activeIndex_change
                   defaultProps (mountedAt sampleContainer 2) _ 0
                   {| textContent := EmptyString |}
                   (mkTestimonial 3 "Marcus Lee" "CTO, NorthStar" (Some 4%nat)
                      "Solid performance and smooth transitions across devices.")
                   eq_refl eq_refl eq_refl _)).
  intros d Hd. injection Hd as <-. simpl. discriminate.
Defined.

Lemma onKeyDown_scrolls_one_viewport_witness :
  containerRef (mounted sampleContainer) = Some sampleContainer
  /\ requestsOf
       (snd (onKeyDown {| key := "ArrowLeft"; defaultPrevented := false |}
                       (mounted sampleContainer)))
     = [ {| left := (-1) * 30; behavior := "smooth" |} ]
  /\ onKeyDown {| key := "Enter"; defaultPrevented := false |}
               (mounted sampleContainer)
     = ({| key := "Enter"; defaultPrevented := false |},
        mounted sampleContainer).
Proof.
  split; [reflexivity|]. split.
  - refine (proj1 (proj1 (proj2 (onKeyDown_scrolls_one_viewport
              {| key := "ArrowLeft"; defaultPrevented := false |}
              (mounted sampleContainer) sampleContainer eq_refl)) eq_refl)).
  - refine (proj1 (proj2 (proj2 (onKeyDown_scrolls_one_viewport
              {| key := "Enter"; defaultPrevented := false |}
              (mounted sampleContainer) sampleContainer eq_refl))) _ _);
      simpl; discriminate.
Defined.

Lemma unavailable_container_noop_witness :
  containerRef unmounted = None
  /\ updateScrollState unmounted = unmounted
  /\ scrollByViewport 1 unmounted = unmounted.
Proof.
  split; [reflexivity|].
  destruct (unavailable_container_noop unmounted eq_refl) as [Hu [Hs _]].
  split; [exact Hu | exact (Hs 1)].
Defined.


Lemma updateScrollState_even_layout_witness :
  containerRef (mounted evenContainer) = Some evenContainer
  /\ List.length (childList evenContainer) = 3%nat
  /\ 0 < 10
  /\ scrollLeft evenContainer == 4 + inject_Z (Z.of_nat 2) * 10
  /\ activeIndex (state (updateScrollState (mounted evenContainer))) = 2%nat.
Proof.
  assert (Hw : 0 < 10) by reflexivity.
  assert (Hs : scrollLeft evenContainer == 4 + inject_Z (Z.of_nat 2) * 10)
    by reflexivity.
  split; [reflexivity|]. split; [reflexivity|]. split; [exact Hw|].
  split; [exact Hs|].
  refine (updateScrollState_even_layout (mounted evenContainer) evenContainer
            3 2 4 10 eq_refl eq_refl _ Hw _ Hs).
  - lia.
  - intros i child Hi.
    destruct i as [|[|[|[|i]]]]; simpl in Hi; try discriminate;
      injection Hi as <-; reflexivity.
Defined.

Lemma updateScrollState_deterministic_witness :
  map offsetLeft (childList sampleContainer)
  = map offsetLeft
      (childList (scrollBy {| left := 30; behavior := "smooth" |} sampleContainer))
  /\ state (updateScrollState (mounted sampleContainer))
     = state (updateScrollState
                (mounted (scrollBy {| left := 30; behavior := "smooth" |}
                                   sampleContainer))).
Proof.
  split; [reflexivity|].
  exact (proj1 (updateScrollState_deterministic
                  (mounted sampleContainer)
                  (mounted (scrollBy {| left := 30; behavior := "smooth" |}
                                     sampleContainer))
                  sampleContainer
                  (scrollBy {| left := 30; behavior := "smooth" |} sampleContainer)
                  eq_refl eq_refl eq_refl eq_refl eq_refl eq_refl) eq_refl).
Defined.

Lemma activeIndex_always_valid_witness :
  (0 < 4)%nat
  /\ state unmounted = initialState
  /\ (activeIndex
        (state (runNotifications unmounted
                  [None; Some sampleContainer; None])) < 4)%nat.
Proof.
  assert (H4 : (0 < 4)%nat) by lia.
  split; [exact H4|]. split; [reflexivity|].
  refine (proj1 (activeIndex_always_valid 4 unmounted
                   [None; Some sampleContainer; None] H4 eq_refl _)).
  repeat constructor; intros el Hel; try discriminate.
  injection Hel as <-. reflexivity.
Defined.

(** * Further properties of the component *)

(** ** The active index and the scroll position *)

Lemma Qabs_cases (x : Q) :
  (0 <= x /\ Qabs x == x) \/ (x <= 0 /\ Qabs x == - x).
Proof.
  destruct (Qlt_le_dec x 0) as [Hneg | Hpos].
  - right. split; [apply Qlt_le_weak; exact Hneg|].
    apply Qabs_neg. apply Qlt_le_weak. exact Hneg.
  - left. split; [exact Hpos|]. apply Qabs_pos. exact Hpos.
Qed.

(** For two cards, the left one at [oj] and the right one at [oi]: once the
    right one is strictly nearer it stays strictly nearer further right. *)
Lemma nearer_stays_nearer (oi oj s1 s2 : Q) :
  oj <= oi -> s1 <= s2 ->
  Qabs (oi - s1) < Qabs (oj - s1) ->
  Qabs (oi - s2) < Qabs (oj - s2).
Proof.
  intros Ho Hs.
  destruct (Qabs_cases (oi - s1)) as [[A1 E1] | [A1 E1]];
    destruct (Qabs_cases (oj - s1)) as [[B1 F1] | [B1 F1]];
    destruct (Qabs_cases (oi - s2)) as [[A2 E2] | [A2 E2]];
    destruct (Qabs_cases (oj - s2)) as [[B2 F2] | [B2 F2]];
    rewrite E1, F1, E2, F2; intros H; lra.
Qed.

Lemma closestIdx_monotone (s1 s2 : Q) (l : list HTMLElement) :
  l <> [] -> leftToRight l -> s1 <= s2 ->
  (closestIdx s1 l <= closestIdx s2 l)%nat.
Proof.
  intros Hne Hsorted Hs.
  destruct (closestIdx_nearestFirst s1 l Hne) as [ci [Hci [_ Hfirst1]]].
  destruct (closestIdx_nearestFirst s2 l Hne) as [cj [Hcj [Hmin2 _]]].
  destruct (Nat.le_gt_cases (closestIdx s1 l) (closestIdx s2 l))
    as [Hle | Hgt]; [exact Hle|].
  exfalso.
  pose proof (Hfirst1 _ cj Hgt Hcj) as Hnear.
  pose proof (Hmin2 _ ci Hci) as Hfar.
  assert (Ho : offsetLeft cj <= offsetLeft ci).
  { apply (Hsorted (closestIdx s2 l) (closestIdx s1 l)); [lia | | ]; assumption. }
  unfold delta in Hnear, Hfar.
  pose proof (nearer_stays_nearer _ _ s1 s2 Ho Hs Hnear) as Hcontra.
  exact (Qlt_not_le _ _ Hcontra Hfar).
Qed.

(** X1.  Cards laid out left to right (offsets never decrease along the child
    list): scrolling further right never moves the active index to the left.
    For the same children and [scrollLeft] not smaller than before,
    [updateScrollState] stores an index not smaller than before. *)
Theorem activeIndex_monotone_in_scrollLeft
    (c1 c2 : Component) (el1 el2 : Container) :
  containerRef c1 = Some el1 ->
  containerRef c2 = Some el2 ->
  childList el1 = childList el2 ->
  childList el1 <> [] ->
  leftToRight (childList el1) ->
  scrollLeft el1 <= scrollLeft el2 ->
  (activeIndex (state (updateScrollState c1))
   <= activeIndex (state (updateScrollState c2)))%nat.
Proof.
  intros H1 H2 Hsame Hne Hsorted Hs.
  rewrite (updateScrollState_activeIndex c1 el1 H1 Hne).
  rewrite (updateScrollState_activeIndex c2 el2 H2)
    by (rewrite <- Hsame; exact Hne).
  rewrite <- Hsame. apply closestIdx_monotone; assumption.
Qed.

Lemma nearestFirst_translate (sl sl' d : Q) (l l' : list HTMLElement) (i : nat) :
  List.length l = List.length l' ->
  (forall k ch ch', nth_error l k = Some ch -> nth_error l' k = Some ch' ->
     offsetLeft ch' == offsetLeft ch + d) ->
  sl' == sl + d ->
  nearestFirst sl l i -> nearestFirst sl' l' i.
Proof.
  intros Hlen Hoff Hsl [ch [Hch [Hmin Hfirst]]].
  assert (Hback : forall k ch', nth_error l' k = Some ch' ->
            exists ch0, nth_error l k = Some ch0
                        /\ delta sl' ch' == delta sl ch0).
  { intros k ch' Hk. destruct (nth_error l k) as [ch0|] eqn:Hk0.
    - exists ch0. split; [reflexivity|]. unfold delta.
      apply Qabs_wd. pose proof (Hoff k ch0 ch' Hk0 Hk). lra.
    - exfalso. apply nth_error_None in Hk0.
      assert (k < List.length l')%nat by (apply nth_error_Some; congruence).
      lia. }
  destruct (nth_error l' i) as [ch'|] eqn:Hch'.
  - destruct (Hback i ch' Hch') as [ch0 [Hch0 Hd]].
    assert (ch0 = ch) by congruence. subst ch0.
    exists ch'. split; [exact Hch'|]. split.
    + intros j other' Hj. destruct (Hback j other' Hj) as [other [Ho Hdo]].
      rewrite Hd, Hdo. eapply Hmin. exact Ho.
    + intros j other' Hlt Hj. destruct (Hback j other' Hj) as [other [Ho Hdo]].
      rewrite Hd, Hdo. eapply Hfirst; eassumption.
  - exfalso. apply nth_error_None in Hch'.
    assert (i < List.length l)%nat by (apply nth_error_Some; congruence).
    lia.
Qed.

(** X2.  The active index depends on the positions of the cards relative to
    the scroll position only: moving every card and [scrollLeft] by the same
    amount [d] (as a different padding of the strip would), or writing the
    same numbers differently ([d] zero), gives the same [activeIndex]. *)
Theorem activeIndex_translation_invariant
    (c c' : Component) (el el' : Container) (d : Q) :
  containerRef c = Some el ->
  containerRef c' = Some el' ->
  childList el <> [] ->
  List.length (childList el) = List.length (childList el') ->
  (forall k ch ch', nth_error (childList el) k = Some ch ->
     nth_error (childList el') k = Some ch' ->
     offsetLeft ch' == offsetLeft ch + d) ->
  scrollLeft el' == scrollLeft el + d ->
  activeIndex (state (updateScrollState c'))
  = activeIndex (state (updateScrollState c)).
Proof.
  intros H H' Hne Hlen Hoff Hsl.
  assert (Hne' : childList el' <> []).
  { intros Hnil. rewrite Hnil in Hlen. destruct (childList el);
      [contradiction | discriminate]. }
  rewrite (updateScrollState_activeIndex c el H Hne).
  rewrite (updateScrollState_activeIndex c' el' H' Hne').
  apply (nearestFirst_unique (scrollLeft el') (childList el')).
  - apply closestIdx_nearestFirst. exact Hne'.
  - apply (nearestFirst_translate (scrollLeft el) (scrollLeft el') d (childList el));
      try assumption.
    apply closestIdx_nearestFirst. exact Hne.
Qed.

(** X3.  Cards laid out left to right, scrolled to the left edge of the first
    card or further left: the first card is the active one. *)
Theorem activeIndex_at_left_end (c : Component) (el : Container)
    (first : HTMLElement) :
  containerRef c = Some el ->
  nth_error (childList el) 0 = Some first ->
  leftToRight (childList el) ->
  scrollLeft el <= offsetLeft first ->
  activeIndex (state (updateScrollState c)) = 0%nat.
Proof.
  intros Hel Hfirst Hsorted Hs.
  assert (Hne : childList el <> []).
  { intros Hnil. rewrite Hnil in Hfirst. discriminate. }
  rewrite (updateScrollState_activeIndex c el Hel Hne).
  apply (nearestFirst_unique (scrollLeft el) (childList el)).
  - apply closestIdx_nearestFirst. exact Hne.
  - exists first. split; [exact Hfirst|]. split.
    + intros j other Hj.
      assert (Ho : offsetLeft first <= offsetLeft other).
      { apply (Hsorted 0%nat j); [lia | exact Hfirst | exact Hj]. }
      unfold delta.
      destruct (Qabs_cases (offsetLeft first - scrollLeft el)) as [[A E] | [A E]];
        destruct (Qabs_cases (offsetLeft other - scrollLeft el)) as [[B F] | [B F]];
        rewrite E, F; lra.
    + intros j other Hlt. lia.
Qed.

(** X4.  Cards at strictly increasing offsets, scrolled to the left edge of
    the last card or further right: the last card is the active one. *)
Theorem activeIndex_at_right_end (c : Component) (el : Container)
    (last : HTMLElement) :
  containerRef c = Some el ->
  nth_error (childList el) (List.length (childList el) - 1) = Some last ->
  strictlyLeftToRight (childList el) ->
  offsetLeft last <= scrollLeft el ->
  activeIndex (state (updateScrollState c))
  = (List.length (childList el) - 1)%nat.
Proof.
  intros Hel Hlast Hsorted Hs.
  assert (Hne : childList el <> []).
  { intros Hnil. rewrite Hnil in Hlast. discriminate. }
  rewrite (updateScrollState_activeIndex c el Hel Hne).
  apply (nearestFirst_unique (scrollLeft el) (childList el)).
  - apply closestIdx_nearestFirst. exact Hne.
  - exists last. split; [exact Hlast|].
    assert (Hcmp : forall j other, nth_error (childList el) j = Some other ->
              (j < List.length (childList el) - 1)%nat ->
              delta (scrollLeft el) last < delta (scrollLeft el) other).
    { intros j other Hj Hlt.
      pose proof (Hsorted j _ other last Hlt Hj Hlast) as Ho.
      unfold delta.
      destruct (Qabs_cases (offsetLeft last - scrollLeft el)) as [[A E] | [A E]];
        destruct (Qabs_cases (offsetLeft other - scrollLeft el)) as [[B F] | [B F]];
        rewrite E, F; lra. }
    split.
    + intros j other Hj.
      assert (Hj' : (j < List.length (childList el))%nat).
      { apply nth_error_Some. congruence. }
      destruct (Nat.eq_dec j (List.length (childList el) - 1)) as [-> | Hneq].
      * assert (other = last) by congruence. subst. apply Qle_refl.
      * apply Qlt_le_weak. apply (Hcmp j); [exact Hj | lia].
    + intros j other Hlt Hj. apply (Hcmp j); assumption.
Qed.

(** ** Arrow buttons *)

(** X5.  After [updateScrollState] on a container whose content overflows by
    more than one unit, the two arrow buttons are never both disabled; on a
    container scrolled to [0] whose content overflows by at most one unit,
    both are. *)
Theorem arrows_never_both_disabled (c : Component) (el : Container) :
  containerRef c = Some el ->
  let s := state (updateScrollState c) in
  (1 < scrollWidth el - clientWidth el ->
   prevDisabled s && nextDisabled s = false)
  /\ (scrollLeft el == 0 -> scrollWidth el - clientWidth el <= 1 ->
      prevDisabled s = true /\ nextDisabled s = true).
Proof.
  intros Hel s.
  destruct (updateScrollState_flags c el Hel) as [HL HR].
  fold s in HL, HR. unfold prevDisabled, nextDisabled. rewrite HL, HR.
  split.
  - intros Hover.
    destruct (Qltb 0 (scrollLeft el)) eqn:E1; [reflexivity|].
    apply Qltb_ge in E1.
    assert (E2 : Qltb (scrollLeft el + clientWidth el) (scrollWidth el - 1)
                 = true) by (apply Qltb_lt; lra).
    rewrite E2. reflexivity.
  - intros Hzero Hfit. split; apply negb_true_iff; apply Qltb_ge; lra.
Qed.

(** ** Scroll requests *)

(** X6.  Requesting a scroll and recomputing the view state are independent:
    in either order the result is the same component, so a request by itself
    changes neither flag nor the active index (the change arrives with the
    later scroll notification). *)
Theorem updateScrollState_scrollByViewport_commute (dir : Q) (c : Component) :
  updateScrollState (scrollByViewport dir c)
  = scrollByViewport dir (updateScrollState c)
  /\ state (updateScrollState (scrollByViewport dir c))
     = state (updateScrollState c).
Proof.
  destruct c as [[el|] lr st]; [|split; reflexivity].
  unfold updateScrollState, scrollByViewport.
  cbn [containerRef liveRef state].
  change (childList (scrollBy {| left := dir * clientWidth el;
                                 behavior := "smooth" |} el))
    with (childList el).
  destruct (childList el) as [|x rest]; split; reflexivity.
Qed.

Lemma onKeyDown_component (e : KeyboardEvent) (c : Component) :
  snd (onKeyDown e c)
  = match keyDirection e with
    | Some d => scrollByViewport d c
    | None => c
    end.
Proof.
  unfold onKeyDown, keyDirection.
  destruct (String.eqb (key e) "ArrowRight"); [reflexivity|].
  destruct (String.eqb (key e) "ArrowLeft"); reflexivity.
Qed.

Lemma totalLeft_app (a b : list ScrollToOptions) :
  totalLeft (a ++ b) == totalLeft a + totalLeft b.
Proof.
  induction a as [|r rest IH]; simpl; [lra | rewrite IH; lra].
Qed.

Lemma totalLeft_viewportRequests (cw : Q) (ds : list Q) :
  totalLeft (map (viewportRequest cw) ds) == sumQ ds * cw.
Proof.
  induction ds as [|d rest IH]; simpl; [lra | rewrite IH; lra].
Qed.

Lemma handleKeys_container (es : list KeyboardEvent) (c : Component)
    (el : Container) :
  containerRef c = Some el ->
  exists el',
    containerRef (handleKeys es c) = Some el'
    /\ clientWidth el' = clientWidth el
    /\ scrollByCalls el'
       = scrollByCalls el
           ++ map (viewportRequest (clientWidth el)) (keyDirections es)
    /\ state (handleKeys es c) = state c
    /\ liveRef (handleKeys es c) = liveRef c.
Proof.
  revert c el. induction es as [|e rest IH]; intros c el Hel.
  - exists el. simpl. rewrite app_nil_r. repeat split. exact Hel.
  - unfold handleKeys. simpl. fold (handleKeys rest (snd (onKeyDown e c))).
    rewrite onKeyDown_component.
    destruct (keyDirection e) as [d|].
    + destruct (IH (scrollByViewport d c)
                   (scrollBy (viewportRequest (clientWidth el) d) el))
        as [el' [Href [Hcw [Hcalls [Hst Hlive]]]]].
      { unfold scrollByViewport. rewrite Hel. reflexivity. }
      exists el'. split; [exact Href|]. split; [exact Hcw|].
      split; [|split].
      * rewrite Hcalls. simpl. rewrite <- app_assoc. reflexivity.
      * rewrite Hst. unfold scrollByViewport. rewrite Hel. reflexivity.
      * rewrite Hlive. unfold scrollByViewport. rewrite Hel. reflexivity.
    + apply IH. exact Hel.
Qed.

(** X7.  A sequence of key presses on a mounted carousel (its width staying
    the same) adds one scroll request per arrow key, in the order pressed, each of one [clientWidth] in
    the key's direction; other keys add nothing.  The requested offsets sum
    to (rights minus lefts) times [clientWidth], and the view state is not
    touched. *)
Theorem handleKeys_requests (es : list KeyboardEvent) (c : Component)
    (el : Container) :
  containerRef c = Some el ->
  requestsOf (handleKeys es c)
  = requestsOf c ++ map (viewportRequest (clientWidth el)) (keyDirections es)
  /\ totalLeft (requestsOf (handleKeys es c))
     == totalLeft (requestsOf c) + sumQ (keyDirections es) * clientWidth el
  /\ state (handleKeys es c) = state c.
Proof.
  intros Hel.
  destruct (handleKeys_container es c el Hel)
    as [el' [Href [_ [Hcalls [Hst _]]]]].
  assert (Hreq : requestsOf (handleKeys es c)
                 = requestsOf c
                   ++ map (viewportRequest (clientWidth el)) (keyDirections es)).
  { unfold requestsOf. rewrite Href, Hel. exact Hcalls. }
  split; [exact Hreq|]. split; [|exact Hst].
  rewrite Hreq, totalLeft_app, totalLeft_viewportRequests. reflexivity.
Qed.

(** X8.  While the container ref is [null] an arrow key still has its default
    action suppressed although nothing is scrolled: the component is
    unchanged. *)
Theorem onKeyDown_unmounted (e : KeyboardEvent) (c : Component) :
  containerRef c = None ->
  key e = "ArrowRight"%string \/ key e = "ArrowLeft"%string ->
  onKeyDown e c = (preventDefault e, c)
  /\ defaultPrevented (fst (onKeyDown e c)) = true
  /\ requestsOf (snd (onKeyDown e c)) = [].
Proof.
  intros Hnone Hkey.
  assert (H : onKeyDown e c = (preventDefault e, c)).
  { unfold onKeyDown, scrollByViewport. rewrite Hnone.
    destruct Hkey as [-> | ->]; reflexivity. }
  rewrite H. split; [reflexivity|]. split; [reflexivity|].
  unfold requestsOf. simpl. rewrite Hnone. reflexivity.
Qed.

(** ** Announcements: when nothing is written, and what is *)

Lemma announceEffect_frame (p : Props) (c : Component) :
  containerRef (announceEffect p c) = containerRef c
  /\ state (announceEffect p c) = state c.
Proof.
  unfold announceEffect.
  destruct (negb (withDefault true (announceChanges p))); [split; reflexivity|].
  destruct (liveRef c); [|split; reflexivity].
  destruct (nth_error (testimonials (items p)) (activeIndex (state c)));
    split; reflexivity.
Qed.

Lemma announceEffect_skips (p : Props) (c : Component) :
  announceChanges p = Some false
  \/ liveRef c = None
  \/ (List.length (testimonials (items p)) <= activeIndex (state c))%nat ->
  announceEffect p c = c.
Proof.
  intros H. unfold announceEffect.
  destruct (negb (withDefault true (announceChanges p))) eqn:Hon;
    [reflexivity|].
  destruct H as [Hoff | [Hlive | Hrange]].
  - rewrite Hoff in Hon. discriminate.
  - rewrite Hlive. reflexivity.
  - destruct (liveRef c); [|reflexivity].
    apply nth_error_None in Hrange. rewrite Hrange. reflexivity.
Qed.

(** X9.  A commit writes no announcement, and leaves the whole component as
    it was, when announcements are switched off, when the live region is not
    mounted, or when [activeIndex] is not an index of the testimonial list.
    In every case a commit leaves the container ref and the view state
    alone. *)
Theorem commitAnnounce_skips
    (prev : option Deps) (memo : nat) (p : Props) (c : Component) :
  (announceChanges p = Some false
   \/ liveRef c = None
   \/ (List.length (testimonials (items p)) <= activeIndex (state c))%nat ->
   commitAnnounce prev memo p c = c)
  /\ containerRef (commitAnnounce prev memo p c) = containerRef c
  /\ state (commitAnnounce prev memo p c) = state c.
Proof.
  split.
  - intros H. unfold commitAnnounce.
    destruct prev as [d|]; [|apply announceEffect_skips; exact H].
    destruct (sameDeps d (currentDeps memo p c)); [reflexivity|].
    apply announceEffect_skips. exact H.
  - unfold commitAnnounce.
    destruct prev as [d|]; [|apply announceEffect_frame].
    destruct (sameDeps d (currentDeps memo p c));
      [split; reflexivity | apply announceEffect_frame].
Qed.

Lemma append_cancel_l (pre a b : string) :
  (pre ++ a)%string = (pre ++ b)%string -> a = b.
Proof.
  induction pre as [|ch pre IH]; simpl; intros H; [exact H|].
  injection H as H. apply IH. exact H.
Qed.

Lemma spaceless_prefix_unique (a b r1 r2 : string) :
  Forall (fun ch => ch <> space) (chars a) ->
  Forall (fun ch => ch <> space) (chars b) ->
  (a ++ String space r1)%string = (b ++ String space r2)%string ->
  a = b.
Proof.
  revert b. induction a as [|ch a IH]; intros [|ch' b] Ha Hb H; simpl in *.
  - reflexivity.
  - injection H as Hch _. inversion Hb; subst. congruence.
  - injection H as Hch _. inversion Ha; subst. congruence.
  - injection H as Hch Hrest. inversion Ha; inversion Hb; subst.
    f_equal. apply IH; assumption.
Qed.

Lemma string_of_uint_spaceless (d : Decimal.uint) :
  Forall (fun ch => ch <> space) (chars (NilEmpty.string_of_uint d)).
Proof.
  induction d; simpl; constructor; try assumption; discriminate.
Qed.

Lemma decimal_inj (a b : nat) : decimal a = decimal b -> a = b.
Proof.
  unfold decimal. intros H.
  apply (f_equal NilEmpty.uint_of_string) in H.
  rewrite !NilEmpty.usu in H. injection H as H.
  apply DecimalNat.Unsigned.to_uint_inj. exact H.
Qed.

Lemma announcement_index_inj (i j n m : nat) (t t' : Testimonial) :
  announcement i n t = announcement j m t' -> i = j.
Proof.
  unfold announcement. intros H.
  apply append_cancel_l in H.
  apply spaceless_prefix_unique in H;
    try (unfold decimal; apply string_of_uint_spaceless).
  apply decimal_inj in H. lia.
Qed.

(** X10.  Two different slides never get the same announcement: with
    announcements enabled, the live region mounted and both indices within
    the list, commits at different [activeIndex] leave different texts in the
    live region, whatever the names and roles are. *)
Theorem announcements_differ
    (p : Props) (c1 c2 : Component) (live1 live2 : LiveRegion) :
  withDefault true (announceChanges p) = true ->
  liveRef c1 = Some live1 ->
  liveRef c2 = Some live2 ->
  (activeIndex (state c1) < List.length (testimonials (items p)))%nat ->
  (activeIndex (state c2) < List.length (testimonials (items p)))%nat ->
  activeIndex (state c1) <> activeIndex (state c2) ->
  liveRef (announceEffect p c1) <> liveRef (announceEffect p c2).
Proof.
  intros Hon Hl1 Hl2 Hr1 Hr2 Hne Heq.
  destruct (nth_error (testimonials (items p)) (activeIndex (state c1)))
    as [t1|] eqn:H1; [|apply nth_error_None in H1; lia].
  destruct (nth_error (testimonials (items p)) (activeIndex (state c2)))
    as [t2|] eqn:H2; [|apply nth_error_None in H2; lia].
  rewrite (announceEffect_writes p c1 live1 t1 Hon Hl1 H1) in Heq.
  rewrite (announceEffect_writes p c2 live2 t2 Hon Hl2 H2) in Heq.
  apply Hne.
  apply (announcement_index_inj _ _ (List.length (testimonials (items p)))
           (List.length (testimonials (items p))) t1 t2).
  cbn [liveRef] in Heq. congruence.
Qed.

Lemma testimonials_nonempty (its : option (list Testimonial)) :
  (0 < List.length (testimonials its))%nat.
Proof.
  unfold testimonials. destruct its as [l|]; [|simpl; lia].
  destruct l as [|t rest]; simpl; lia.
Qed.

Lemma renderCards_length (p : Props) :
  List.length (renderCards p) = List.length (testimonials (items p)).
Proof.
  unfold renderCards. apply mapIndexed_length.
Qed.

Lemma runNotifications_liveRef (refs : list (option Container)) (c : Component) :
  liveRef (runNotifications c refs) = liveRef c.
Proof.
  revert c. unfold runNotifications.
  induction refs as [|ref rest IH]; intros c; [reflexivity|].
  simpl. rewrite IH. unfold notify.
  destruct (updateScrollState_refs
              {| containerRef := ref; liveRef := liveRef c; state := state c |})
    as [_ Hl].
  exact Hl.
Qed.

Lemma runNotifications_activeIndex_lt (n : nat)
    (refs : list (option Container)) (c : Component) :
  (0 < n)%nat ->
  Forall (fun ref => forall el, ref = Some el ->
                                List.length (childList el) = n) refs ->
  (activeIndex (state c) < n)%nat ->
  (activeIndex (state (runNotifications c refs)) < n)%nat.
Proof.
  intros Hn Hall. revert c. unfold runNotifications.
  induction Hall as [|ref rest Href _ IH]; intros c Hc; [exact Hc|].
  simpl. apply IH. apply notify_activeIndex_lt; assumption.
Qed.

(** X11.  From the initial state, after any sequence of scroll and resize
    notifications on a container that, when available, has one child per
    rendered card, the item at [activeIndex] exists; so with announcements
    enabled and the live region mounted the effect does write the
    announcement of that item (it never skips for a missing item). *)
Theorem announcement_after_notifications
    (p : Props) (c0 : Component) (refs : list (option Container))
    (live : LiveRegion) :
  state c0 = initialState ->
  liveRef c0 = Some live ->
  withDefault true (announceChanges p) = true ->
  Forall (fun ref => forall el, ref = Some el ->
            List.length (childList el) = List.length (renderCards p)) refs ->
  exists current,
    nth_error (testimonials (items p))
              (activeIndex (state (runNotifications c0 refs))) = Some current
    /\ liveRef (announceEffect p (runNotifications c0 refs))
       = Some {| textContent :=
                   announcement (activeIndex (state (runNotifications c0 refs)))
                     (List.length (testimonials (items p))) current |}.
Proof.
  intros Hinit Hlive Hon Hall.
  pose proof (testimonials_nonempty (items p)) as Hpos.
  assert (Hlt : (activeIndex (state (runNotifications c0 refs))
                 < List.length (testimonials (items p)))%nat).
  { apply runNotifications_activeIndex_lt.
    - exact Hpos.
    - rewrite <- renderCards_length. exact Hall.
    - rewrite Hinit. simpl. exact Hpos. }
  destruct (nth_error (testimonials (items p))
              (activeIndex (state (runNotifications c0 refs))))
    as [current|] eqn:Hcur; [|apply nth_error_None in Hcur; lia].
  exists current. split; [reflexivity|].
  rewrite (announceEffect_writes p (runNotifications c0 refs) live current Hon);
    [reflexivity | | exact Hcur].
  rewrite runNotifications_liveRef. exact Hlive.
Qed.

(** ** The rendered cards *)

Lemma mapIndexed_nth_error {A B : Type} (f : A -> nat -> B) (l : list A)
    (idx k : nat) :
  nth_error (mapIndexed f l idx) k
  = option_map (fun a => f a (idx + k)%nat) (nth_error l k).
Proof.
  revert idx k. induction l as [|a rest IH]; intros idx k.
  - destruct k; reflexivity.
  - destruct k as [|k]; simpl.
    + rewrite Nat.add_0_r. reflexivity.
    + rewrite IH. replace (S idx + k)%nat with (idx + S k)%nat by lia.
      reflexivity.
Qed.

Lemma mapIndexed_map_ext {A B C : Type} (f g : A -> nat -> B) (h : B -> C)
    (l : list A) (idx : nat) :
  (forall a i, h (f a i) = h (g a i)) ->
  map h (mapIndexed f l idx) = map h (mapIndexed g l idx).
Proof.
  intros Hext. revert idx. induction l as [|a rest IH]; intros idx; simpl;
    [reflexivity | rewrite Hext, IH; reflexivity].
Qed.

Lemma mapIndexed_Forall {A B : Type} (P : B -> Prop) (f : A -> nat -> B)
    (l : list A) (idx : nat) :
  (forall a i, P (f a i)) -> Forall P (mapIndexed f l idx).
Proof.
  intros HP. revert idx. induction l as [|a rest IH]; intros idx; simpl;
    constructor; auto.
Qed.

(** X12.  The render shows the testimonials in their order, one card each and
    never none: the card at position [k] carries the id, name, role and text
    of the testimonial at position [k] and the label
    [Slide {k+1} of {number of cards}]. *)
Theorem renderCards_in_order (p : Props) (k : nat) (t : Testimonial) :
  nth_error (testimonials (items p)) k = Some t ->
  (0 < List.length (renderCards p))%nat
  /\ List.length (renderCards p) = List.length (testimonials (items p))
  /\ exists card,
       nth_error (renderCards p) k = Some card
       /\ cardKey card = id t
       /\ cardName card = name t
       /\ cardRole card = role t
       /\ quote card = text t
       /\ ariaLabel card
          = ("Slide " ++ decimal (k + 1) ++ " of "
               ++ decimal (List.length (renderCards p)))%string.
Proof.
  intros Hk. rewrite renderCards_length.
  split; [apply testimonials_nonempty|]. split; [reflexivity|].
  exists (renderCard p (List.length (testimonials (items p))) t k).
  split; [|repeat split].
  unfold renderCards. rewrite mapIndexed_nth_error, Hk. reflexivity.
Qed.

(** X13.  Switching [showStars] off removes the star row of every card and
    changes nothing else: key, label, name, role and quote of every card are
    the same as with stars, where every card has a row of five. *)
Theorem showStars_only_changes_stars (p q : Props) :
  items p = items q ->
  showStars q = Some false ->
  map (fun cd => (cardKey cd, ariaLabel cd, cardName cd, cardRole cd, quote cd))
      (renderCards p)
  = map (fun cd => (cardKey cd, ariaLabel cd, cardName cd, cardRole cd, quote cd))
        (renderCards q)
  /\ Forall (fun cd => stars cd = None) (renderCards q)
  /\ (withDefault true (showStars p) = true ->
      Forall (fun cd => exists row, stars cd = Some row
                                    /\ List.length row = 5%nat)
             (renderCards p)).
Proof.
  intros Hitems Hoff. unfold renderCards. rewrite <- Hitems.
  split; [|split].
  - apply mapIndexed_map_ext. intros a i. reflexivity.
  - apply mapIndexed_Forall. intros a i. unfold renderCard. simpl.
    rewrite Hoff. reflexivity.
  - intros Hon. apply mapIndexed_Forall. intros a i. unfold renderCard. simpl.
    rewrite Hon. eexists. split; reflexivity.
Qed.

Lemma star_row (r : nat) :
  map (fun i => Nat.ltb i r) (seq 0 5)
  = repeat true (Nat.min r 5) ++ repeat false (5 - Nat.min r 5).
Proof.
  destruct r as [|[|[|[|[|[|r]]]]]]; reflexivity.
Qed.

(** X14.  With stars shown, the star row of a card with a whole-number rating
    is [min(rating, 5)] filled stars followed by unfilled ones, five in all; a testimonial without a
    rating gets five unfilled stars. *)
Theorem stars_filled_prefix (p : Props) (k : nat) (t : Testimonial)
    (card : Card) :
  withDefault true (showStars p) = true ->
  nth_error (testimonials (items p)) k = Some t ->
  nth_error (renderCards p) k = Some card ->
  stars card
  = Some (repeat true (Nat.min (withDefault 0%nat (rating t)) 5)
            ++ repeat false (5 - Nat.min (withDefault 0%nat (rating t)) 5))
  /\ (rating t = None -> stars card = Some (repeat false 5)).
Proof.
  intros Hon Ht Hcard.
  unfold renderCards in Hcard. rewrite mapIndexed_nth_error, Ht in Hcard.
  simpl in Hcard. injection Hcard as <-.
  assert (Hrow : stars (renderCard p (List.length (testimonials (items p))) t k)
                 = Some (map (fun i => Nat.ltb i (withDefault 0%nat (rating t)))
                             (seq 0 5))).
  { unfold renderCard. cbn [stars]. rewrite Hon. reflexivity. }
  rewrite Hrow, star_row. split; [reflexivity|].
  intros Hnone. rewrite Hnone. reflexivity.
Qed.

(** ** Avatar initials *)

Lemma split_space_nonempty (s : string) : split_space s <> [].
Proof.
  destruct s as [|ch rest]; simpl; [discriminate|].
  destruct (Ascii.eqb ch space); [discriminate|].
  destruct (split_space rest); discriminate.
Qed.

Lemma split_space_app (a b : string) :
  split_space (a ++ String space b) = split_space a ++ split_space b.
Proof.
  induction a as [|ch a IH].
  - reflexivity.
  - simpl. destruct (Ascii.eqb ch space).
    + rewrite IH. reflexivity.
    + rewrite IH. pose proof (split_space_nonempty a) as Hne.
      destruct (split_space a) as [|w ws]; [contradiction | reflexivity].
Qed.

Lemma split_space_word (w : string) :
  Forall (fun ch => ch <> space) (chars w) -> split_space w = [w].
Proof.
  induction w as [|ch w IH]; intros Hw; [reflexivity|].
  simpl in Hw. inversion Hw as [|x xs Hch Hrest]; subst.
  simpl. apply Ascii.eqb_neq in Hch. rewrite Hch, (IH Hrest). reflexivity.
Qed.

Lemma filterBoolean_app (a b : list (option ascii)) :
  filterBoolean (a ++ b) = filterBoolean a ++ filterBoolean b.
Proof.
  induction a as [|[ch|] a IH]; simpl; [reflexivity | rewrite IH | exact IH];
    reflexivity.
Qed.

Lemma initial_chars_spaceless (s : string) :
  Forall (fun ch => ch <> space)
         (filterBoolean (map firstChar (split_space s))).
Proof.
  induction s as [|ch rest IH]; simpl; [constructor|].
  destruct (Ascii.eqb ch space) eqn:E; [exact IH|].
  apply Ascii.eqb_neq in E.
  destruct (split_space rest) as [|w ws]; simpl.
  - constructor; [exact E | constructor].
  - constructor; [exact E|]. simpl in IH.
    destruct (firstChar w); [inversion IH; assumption | exact IH].
Qed.

Lemma upperAscii_not_space (ch : ascii) :
  ch <> space -> upperAscii ch <> space.
Proof.
  destruct ch as [[] [] [] [] [] [] [] []]; vm_compute; congruence.
Qed.

Lemma chars_toUpperCase_join (l : list ascii) :
  chars (toUpperCase (join l)) = map upperAscii l.
Proof.
  induction l as [|ch l IH]; simpl; [reflexivity | rewrite IH; reflexivity].
Qed.

Lemma length_chars (s : string) : List.length (chars s) = String.length s.
Proof.
  induction s as [|ch s IH]; simpl; [reflexivity | rewrite IH; reflexivity].
Qed.

Lemma chars_inj (a b : string) : chars a = chars b -> a = b.
Proof.
  revert b. induction a as [|ch a IH]; intros [|ch' b] H; simpl in H;
    try discriminate; [reflexivity|].
  injection H as -> H. rewrite (IH b H). reflexivity.
Qed.

(** X15.  The avatar text has at most two characters and never contains a
    space, whatever the (ASCII) name is, also for a missing name. *)
Theorem AvatarInitials_at_most_two (name : option string) :
  (String.length (AvatarInitials name) <= 2)%nat
  /\ Forall (fun ch => ch <> space) (chars (AvatarInitials name)).
Proof.
  unfold AvatarInitials, rawInitials.
  set (l := filterBoolean (map firstChar (split_space (nameOrEmpty name)))).
  assert (Hl : Forall (fun ch => ch <> space) l)
    by apply initial_chars_spaceless.
  split.
  - rewrite <- length_chars, chars_toUpperCase_join, length_map.
    apply firstn_le_length.
  - rewrite chars_toUpperCase_join. apply Forall_map.
    rewrite <- (firstn_skipn 2 l) in Hl. apply Forall_app in Hl.
    destruct Hl as [Hfirst _].
    eapply Forall_impl; [|exact Hfirst].
    intros ch Hch. apply upperAscii_not_space. exact Hch.
Qed.

(** X16.  Extra spaces in a name do not change the avatar text: a leading
    space, a trailing space and a doubled space are all ignored. *)
Theorem AvatarInitials_ignores_extra_spaces (a b : string) :
  AvatarInitials (Some (String space b)) = AvatarInitials (Some b)
  /\ AvatarInitials (Some (a ++ String space EmptyString)%string)
     = AvatarInitials (Some a)
  /\ AvatarInitials (Some (a ++ String space (String space b))%string)
     = AvatarInitials (Some (a ++ String space b)%string).
Proof.
  unfold AvatarInitials, rawInitials, nameOrEmpty, withDefault.
  split; [|split].
  - change (String space b) with (EmptyString ++ String space b)%string.
    rewrite split_space_app. reflexivity.
  - rewrite split_space_app, map_app, filterBoolean_app. simpl.
    rewrite app_nil_r. reflexivity.
  - rewrite !split_space_app, !map_app, !filterBoolean_app.
    change (String space b) with (EmptyString ++ String space b)%string.
    rewrite split_space_app, map_app, filterBoolean_app. reflexivity.
Qed.

Lemma rawInitials_empty_iff (s : string) :
  rawInitials s = EmptyString <-> Forall (fun ch => ch = space) (chars s).
Proof.
  unfold rawInitials. induction s as [|ch rest IH]; simpl.
  - split; [constructor | reflexivity].
  - destruct (Ascii.eqb ch space) eqn:E.
    + apply Ascii.eqb_eq in E. simpl. rewrite IH. split.
      * intros H. constructor; assumption.
      * intros H. inversion H; assumption.
    + apply Ascii.eqb_neq in E. split.
      * intros H. destruct (split_space rest); simpl in H; discriminate.
      * intros H. inversion H; contradiction.
Qed.

Lemma toUpperCase_empty_iff (s : string) :
  toUpperCase s = EmptyString <-> s = EmptyString.
Proof.
  destruct s; simpl; split; intros H; try reflexivity; discriminate.
Qed.

(** X17.  The avatar is empty exactly when there is no name or the name
    consists of spaces only (the empty name included). *)
Theorem AvatarInitials_empty_iff (name : option string) :
  AvatarInitials name = EmptyString
  <-> name = None
      \/ exists s, name = Some s /\ Forall (fun ch => ch = space) (chars s).
Proof.
  unfold AvatarInitials. rewrite toUpperCase_empty_iff, rawInitials_empty_iff.
  destruct name as [s|]; simpl.
  - split.
    + intros H. right. exists s. split; [reflexivity | exact H].
    + intros [H | [s' [Hs H]]]; [discriminate|].
      injection Hs as <-. exact H.
  - split; [intros _; left; reflexivity | intros _; constructor].
Qed.

(** X18.  For an ASCII name of space-separated words the avatar shows the
    upper-cased first characters of the first two words: one character for a
    single word, and nothing of a third or later word. *)
Theorem AvatarInitials_first_two_words
    (c1 c2 : ascii) (w1 w2 rest : string) :
  Forall (fun ch => ch <> space) (chars (String c1 w1)) ->
  Forall (fun ch => ch <> space) (chars (String c2 w2)) ->
  AvatarInitials (Some (String c1 w1))
  = String (upperAscii c1) EmptyString
  /\ AvatarInitials (Some (String c1 w1 ++ String space (String c2 w2))%string)
     = String (upperAscii c1) (String (upperAscii c2) EmptyString)
  /\ AvatarInitials
       (Some (String c1 w1
                ++ String space (String c2 w2 ++ String space rest))%string)
     = String (upperAscii c1) (String (upperAscii c2) EmptyString).
Proof.
  intros H1 H2.
  unfold AvatarInitials, rawInitials, nameOrEmpty, withDefault.
  split; [|split].
  - rewrite (split_space_word _ H1). reflexivity.
  - rewrite split_space_app, (split_space_word _ H1), (split_space_word _ H2).
    reflexivity.
  - rewrite !split_space_app, (split_space_word _ H1), (split_space_word _ H2).
    reflexivity.
Qed.

Lemma joinUndefined_join (l : list (option ascii)) :
  joinUndefined l = join (filterBoolean l).
Proof.
  induction l as [|[ch|] l IH]; simpl; [reflexivity | rewrite IH | exact IH];
    reflexivity.
Qed.

(** X19.  The first revision's inline avatar text and [AvatarInitials] agree,
    up to upper-casing, when neither of the first two pieces of the name is
    empty; after a leading space the first revision shows one character less
    than the current one. *)
Theorem legacyInitials_vs_AvatarInitials
    (name : string) (c1 c2 : ascii) (w1 w2 : string) :
  (Forall (fun w => w <> EmptyString) (firstn 2 (split_space name)) ->
   toUpperCase (legacyInitials name) = AvatarInitials (Some name))
  /\ (Forall (fun ch => ch <> space) (chars (String c1 w1)) ->
      Forall (fun ch => ch <> space) (chars (String c2 w2)) ->
      legacyInitials
        (String space (String c1 w1 ++ String space (String c2 w2)))%string
      = String c1 EmptyString
      /\ AvatarInitials
           (Some (String space
                    (String c1 w1 ++ String space (String c2 w2)))%string)
         = String (upperAscii c1) (String (upperAscii c2) EmptyString)).
Proof.
  split.
  - intros Hpieces.
    unfold legacyInitials, AvatarInitials, rawInitials, nameOrEmpty, withDefault.
    rewrite joinUndefined_join. f_equal. f_equal.
    destruct (split_space name) as [|p1 [|p2 ps]]; simpl in *.
    + reflexivity.
    + inversion Hpieces as [|x xs Hp1 _]; subst.
      destruct p1; [contradiction | reflexivity].
    + inversion Hpieces as [|x xs Hp1 Hrest]; subst.
      inversion Hrest as [|y ys Hp2 _]; subst.
      destruct p1; [contradiction|]. destruct p2; [contradiction|].
      reflexivity.
  - intros H1 H2.
    unfold legacyInitials, AvatarInitials, rawInitials, nameOrEmpty, withDefault.
    change (String space (String c1 w1 ++ String space (String c2 w2)))%string
      with (EmptyString
              ++ String space (String c1 w1 ++ String space (String c2 w2)))%string.
    rewrite !split_space_app, (split_space_word _ H1), (split_space_word _ H2).
    split; reflexivity.
Qed.

(** ** The page shell *)

Lemma clicks_theme (n : nat) (pg : Page) :
  (theme pg = "light"%string ->
   theme (clicks n pg) = if Nat.even n then "light"%string else "dark"%string)
  /\ (theme pg = "dark"%string ->
      theme (clicks n pg) = if Nat.even n then "dark"%string else "light"%string).
Proof.
  revert pg. induction n as [|n IH]; intros pg.
  - split; intros H; exact H.
  - assert (Hev : Nat.even (S n) = negb (Nat.even n)).
    { rewrite Nat.even_succ, <- Nat.negb_even. reflexivity. }
    rewrite Hev. destruct (IH (clickToggle pg)) as [IHl IHd].
    split; intros H; simpl.
    + rewrite IHd by (simpl; rewrite H; reflexivity).
      destruct (Nat.even n); reflexivity.
    + rewrite IHl by (simpl; rewrite H; reflexivity).
      destruct (Nat.even n); reflexivity.
Qed.

Lemma clicks_dataTheme (n : nat) (pg : Page) :
  dataTheme pg = Some (theme pg) ->
  dataTheme (clicks n pg) = Some (theme (clicks n pg)).
Proof.
  revert pg. induction n as [|n IH]; intros pg H; [exact H|].
  simpl. apply IH. reflexivity.
Qed.

(** X20.  After mounting the page and [n] clicks on the toggle the theme is
    [light] for even [n] and [dark] for odd [n]; the document's [data-theme]
    attribute holds the same value; and the button's label names exactly the
    theme the next click sets. *)
Theorem theme_after_clicks (n : nat) :
  let pg := clicks n (applyTheme initialPage) in
  theme pg = (if Nat.even n then "light"%string else "dark"%string)
  /\ dataTheme pg = Some (theme pg)
  /\ themeLabel (theme pg)
     = ("Switch to " ++ theme (clickToggle pg) ++ " mode")%string.
Proof.
  intros pg. split; [|split].
  - apply clicks_theme. reflexivity.
  - apply clicks_dataTheme. reflexivity.
  - unfold themeLabel, clickToggle, toggleTheme. simpl.
    destruct (String.eqb (theme pg) "light"); reflexivity.
Qed.

(** * The further properties at sample inputs *)

Ltac three_cards :=
  let a := fresh "a" in
  let b := fresh "b" in
  let ca := fresh "ca" in
  let cb := fresh "cb" in
  let Hab := fresh "Hab" in
  let Ha := fresh "Ha" in
  let Hb := fresh "Hb" in
  intros a b ca cb Hab Ha Hb;
  destruct a as [|[|[|[|a]]]]; simpl in Ha; try discriminate Ha;
  destruct b as [|[|[|[|b]]]]; simpl in Hb; try discriminate Hb;
  try lia;
  injection Ha as <-; injection Hb as <-; vm_compute;
  first [discriminate | reflexivity].

Lemma activeIndex_monotone_in_scrollLeft_witness :
  scrollLeft (evenContainerAt 10) <= scrollLeft (evenContainerAt 24)
  /\ (activeIndex (state (updateScrollState (mounted (evenContainerAt 10))))
      <= activeIndex (state (updateScrollState (mounted (evenContainerAt 24)))))%nat.
Proof.
  assert (Hs : scrollLeft (evenContainerAt 10) <= scrollLeft (evenContainerAt 24))
    by (vm_compute; discriminate).
  split; [exact Hs|].
  refine (activeIndex_monotone_in_scrollLeft
            (mounted (evenContainerAt 10)) (mounted (evenContainerAt 24))
            (evenContainerAt 10) (evenContainerAt 24)
            eq_refl eq_refl eq_refl _ _ Hs).
  - vm_compute. discriminate.
  - three_cards.
Defined.

Lemma activeIndex_translation_invariant_witness :
  scrollLeft shiftedContainer == scrollLeft (evenContainerAt 10) + 3
  /\ activeIndex (state (updateScrollState (mounted shiftedContainer)))
     = activeIndex (state (updateScrollState (mounted (evenContainerAt 10)))).
Proof.
  assert (Hs : scrollLeft shiftedContainer == scrollLeft (evenContainerAt 10) + 3)
    by reflexivity.
  split; [exact Hs|].
  refine (activeIndex_translation_invariant
            (mounted (evenContainerAt 10)) (mounted shiftedContainer)
            (evenContainerAt 10) shiftedContainer 3
            eq_refl eq_refl _ eq_refl _ Hs).
  - vm_compute. discriminate.
  - intros k ch ch' Hk Hk'.
    destruct k as [|[|[|[|k]]]]; simpl in Hk, Hk'; try discriminate Hk;
      injection Hk as <-; injection Hk' as <-; reflexivity.
Defined.

Lemma activeIndex_at_left_end_witness :
  scrollLeft (evenContainerAt 0) <= offsetLeft (mkHTMLElement 4)
  /\ activeIndex (state (updateScrollState (mounted (evenContainerAt 0)))) = 0%nat.
Proof.
  assert (Hs : scrollLeft (evenContainerAt 0) <= offsetLeft (mkHTMLElement 4))
    by (vm_compute; discriminate).
  split; [exact Hs|].
  refine (activeIndex_at_left_end (mounted (evenContainerAt 0))
            (evenContainerAt 0) (mkHTMLElement 4) eq_refl eq_refl _ Hs).
  three_cards.
Defined.

Lemma activeIndex_at_right_end_witness :
  offsetLeft (mkHTMLElement 24) <= scrollLeft (evenContainerAt 30)
  /\ activeIndex (state (updateScrollState (mounted (evenContainerAt 30)))) = 2%nat.
Proof.
  assert (Hs : offsetLeft (mkHTMLElement 24) <= scrollLeft (evenContainerAt 30))
    by (vm_compute; discriminate).
  split; [exact Hs|].
  refine (activeIndex_at_right_end (mounted (evenContainerAt 30))
            (evenContainerAt 30) (mkHTMLElement 24) eq_refl eq_refl _ Hs).
  three_cards.
Defined.

Lemma arrows_never_both_disabled_witness :
  1 < scrollWidth sampleContainer - clientWidth sampleContainer
  /\ prevDisabled (state (updateScrollState (mounted sampleContainer)))
     && nextDisabled (state (updateScrollState (mounted sampleContainer)))
     = false.
Proof.
  assert (Ho : 1 < scrollWidth sampleContainer - clientWidth sampleContainer)
    by reflexivity.
  split; [exact Ho|].
  exact (proj1 (arrows_never_both_disabled (mounted sampleContainer)
                  sampleContainer eq_refl) Ho).
Defined.

Lemma handleKeys_requests_witness :
  containerRef (mounted sampleContainer) = Some sampleContainer
  /\ requestsOf
       (handleKeys [ pressed "ArrowRight"; pressed "Enter";
                     pressed "ArrowLeft"; pressed "ArrowRight" ]
                   (mounted sampleContainer))
     = [ viewportRequest 30 1; viewportRequest 30 (-1); viewportRequest 30 1 ].
Proof.
  split; [reflexivity|].
  exact (proj1 (handleKeys_requests
                  [ pressed "ArrowRight"; pressed "Enter";
                    pressed "ArrowLeft"; pressed "ArrowRight" ]
                  (mounted sampleContainer) sampleContainer eq_refl)).
Defined.

Lemma onKeyDown_unmounted_witness :
  containerRef unmounted = None
  /\ onKeyDown (pressed "ArrowRight") unmounted
     = (preventDefault (pressed "ArrowRight"), unmounted).
Proof.
  split; [reflexivity|].
  exact (proj1 (onKeyDown_unmounted (pressed "ArrowRight") unmounted
                  eq_refl (or_introl eq_refl))).
Defined.

Lemma commitAnnounce_skips_witness :
  liveRef unmounted = None
  /\ commitAnnounce None 0 defaultProps unmounted = unmounted.
Proof.
  split; [reflexivity|].
  exact (proj1 (commitAnnounce_skips None 0 defaultProps unmounted)
               (or_intror (or_introl eq_refl))).
Defined.

Lemma announcements_differ_witness :
  activeIndex (state (mountedAt sampleContainer 0))
  <> activeIndex (state (mountedAt sampleContainer 1))
  /\ liveRef (announceEffect defaultProps (mountedAt sampleContainer 0))
     <> liveRef (announceEffect defaultProps (mountedAt sampleContainer 1)).
Proof.
  assert (Hne : activeIndex (state (mountedAt sampleContainer 0))
                <> activeIndex (state (mountedAt sampleContainer 1)))
    by (simpl; discriminate).
  split; [exact Hne|].
  refine (announcements_differ defaultProps
            (mountedAt sampleContainer 0) (mountedAt sampleContainer 1)
            {| textContent := EmptyString |} {| textContent := EmptyString |}
            eq_refl eq_refl eq_refl _ _ Hne); simpl; lia.
Defined.

Lemma announcement_after_notifications_witness :
  state (mounted eightCards) = initialState
  /\ exists current,
       nth_error (testimonials (items defaultProps))
         (activeIndex
            (state (runNotifications (mounted eightCards)
                      [Some eightCards; None]))) = Some current
       /\ liveRef (announceEffect defaultProps
                     (runNotifications (mounted eightCards)
                        [Some eightCards; None]))
          = Some {| textContent :=
                      announcement
                        (activeIndex
                           (state (runNotifications (mounted eightCards)
                                     [Some eightCards; None])))
                        (List.length (testimonials (items defaultProps)))
                        current |}.
Proof.
  split; [reflexivity|].
  refine (announcement_after_notifications defaultProps (mounted eightCards)
            [Some eightCards; None] {| textContent := EmptyString |}
            eq_refl eq_refl eq_refl _).
  repeat constructor; intros el Hel; try discriminate.
  injection Hel as <-. reflexivity.
Defined.

Lemma renderCards_in_order_witness :
  nth_error (testimonials (items defaultProps)) 2
  = Some (mkTestimonial 3 "Marcus Lee" "CTO, NorthStar" (Some 4%nat)
            "Solid performance and smooth transitions across devices.")
  /\ exists card,
       nth_error (renderCards defaultProps) 2 = Some card
       /\ cardName card = "Marcus Lee"%string
       /\ ariaLabel card = "Slide 3 of 8"%string.
Proof.
  split; [reflexivity|].
  destruct (renderCards_in_order defaultProps 2
              (mkTestimonial 3 "Marcus Lee" "CTO, NorthStar" (Some 4%nat)
                 "Solid performance and smooth transitions across devices.")
              eq_refl)
    as [_ [_ [card [Hc [_ [Hn [_ [_ Hl]]]]]]]].
  exists card. split; [exact Hc|]. split; [exact Hn | exact Hl].
Defined.

Lemma showStars_only_changes_stars_witness :
  showStars noStarsProps = Some false
  /\ Forall (fun cd => stars cd = None) (renderCards noStarsProps).
Proof.
  split; [reflexivity|].
  exact (proj1 (proj2 (showStars_only_changes_stars defaultProps noStarsProps
                         eq_refl eq_refl))).
Defined.

Lemma stars_filled_prefix_witness :
  withDefault true (showStars defaultProps) = true
  /\ forall card, nth_error (renderCards defaultProps) 2 = Some card ->
       stars card = Some [true; true; true; true; false].
Proof.
  split; [reflexivity|].
  intros card Hcard.
  exact (proj1 (stars_filled_prefix defaultProps 2
                  (mkTestimonial 3 "Marcus Lee" "CTO, NorthStar" (Some 4%nat)
                     "Solid performance and smooth transitions across devices.")
                  card eq_refl eq_refl Hcard)).
Defined.

Lemma AvatarInitials_first_two_words_witness :
  Forall (fun ch => ch <> space) (chars "alex")
  /\ Forall (fun ch => ch <> space) (chars "johnson")
  /\ AvatarInitials (Some "alex johnson jr"%string) = "AJ"%string.
Proof.
  assert (H1 : Forall (fun ch => ch <> space) (chars "alex"))
    by (repeat constructor; discriminate).
  assert (H2 : Forall (fun ch => ch <> space) (chars "johnson"))
    by (repeat constructor; discriminate).
  split; [exact H1|]. split; [exact H2|].
  exact (proj2 (proj2 (AvatarInitials_first_two_words
                         "a"%char "j"%char "lex" "ohnson" "jr" H1 H2))).
Defined.

Lemma legacyInitials_vs_AvatarInitials_witness :
  Forall (fun w => w <> EmptyString) (firstn 2 (split_space "Alex Johnson"))
  /\ toUpperCase (legacyInitials "Alex Johnson")
     = AvatarInitials (Some "Alex Johnson"%string)
  /\ legacyInitials " Alex Johnson" = "A"%string.
Proof.
  assert (H : Forall (fun w => w <> EmptyString)
                     (firstn 2 (split_space "Alex Johnson")))
    by (repeat constructor; discriminate).
  assert (H1 : Forall (fun ch => ch <> space) (chars "Alex"))
    by (repeat constructor; discriminate).
  assert (H2 : Forall (fun ch => ch <> space) (chars "Johnson"))
    by (repeat constructor; discriminate).
  split; [exact H|]. split.
  - exact (proj1 (legacyInitials_vs_AvatarInitials
                    "Alex Johnson" "A"%char "J"%char "lex" "ohnson") H).
  - exact (proj1 (proj2 (legacyInitials_vs_AvatarInitials
                           "Alex Johnson" "A"%char "J"%char "lex" "ohnson")
                        H1 H2)).
Defined.
